(** * RNA modification analyzer: the statistical core of [src/App.jsx]

    A shallow embedding of the four computations of [App.jsx] that carry
    content -- [calculateLinearRegression], [scatterData], [regressionLine]
    and [filteredGenes] -- together with the data loader [loadData], and the
    properties the specification states about them.

    JavaScript numbers are IEEE 754 binary64 values; they are modelled by
    Rocq's primitive floats, which are the same format (with a single NaN).
    The regression is written once over the arithmetic signature [Number]
    and run on two instances: [float], which is what the program executes,
    and [R], exact real arithmetic, for the algebraic laws that rounding
    breaks. *)

From Stdlib Require Import ZArith List Floats Reals Lra Lia Bool Ascii String.
From stdpp Require Import base option list gmap strings.

Set Default Proof Using "Type".
Set Warnings "-register-all,-inexact-float".

(* ================================================================== *)
(** * Numbers *)

(** The arithmetic the regression uses: integer literals (and array
    lengths read as numbers) and the four operations. *)
Class Number (T : Type) : Type := {
  num_lit : Z -> T;
  num_add : T -> T -> T;
  num_sub : T -> T -> T;
  num_mul : T -> T -> T;
  num_div : T -> T -> T
}.

Declare Scope num_scope.
Delimit Scope num_scope with num.
Infix "+" := num_add : num_scope.
Infix "-" := num_sub : num_scope.
Infix "*" := num_mul : num_scope.
Infix "/" := num_div : num_scope.

(** An integer as a double.  Exact below 2^53, which covers every literal
    of the program and every array length. *)
Definition float_of_Z (z : Z) : float :=
  if (z <? 0)%Z then PrimFloat.opp (PrimFloat.of_uint63 (Uint63.of_Z (- z)))
  else PrimFloat.of_uint63 (Uint63.of_Z z).

#[export] Instance float_number : Number float := {|
  num_lit := float_of_Z;
  num_add := PrimFloat.add;
  num_sub := PrimFloat.sub;
  num_mul := PrimFloat.mul;
  num_div := PrimFloat.div
|}.

#[export] Instance real_number : Number R := {|
  num_lit := IZR;
  num_add := Rplus;
  num_sub := Rminus;
  num_mul := Rmult;
  num_div := Rdiv
|}.

(* ================================================================== *)
(** * The regression: [calculateLinearRegression] *)

Section Regression.
Context {T : Type} `{Number T}.
(** [P] is the type of a data point; [xKey] and [yKey] read the two
    properties the source reaches as [point[xKey]] and [point[yKey]]. *)
Context {P : Type}.
Local Open Scope num_scope.

(** The object the function returns: [{ slope, intercept, r2 }]. *)
Record Fit : Type := mkFit { slope : T; intercept : T; r2 : T }.

(** The four running sums of the first [forEach]. *)
Record Sums : Type := mkSums { sumX : T; sumY : T; sumXY : T; sumX2 : T }.

(** The two running sums of the second [forEach]. *)
Record Squares : Type := mkSquares { ssRes : T; ssTot : T }.

(** [d ** 2].  On doubles this is the rounded product [d * d]: the
    engines' [pow] returns [x * x] for the exponent 2. *)
Definition sq (d : T) : T := d * d.

Section Body.
(** The factor applied to [point[xKey]]; the source writes the literal
    100 in both loops. *)
Variable xScale : T.
Variables xKey yKey : P -> T.

(** The body of the first [forEach] callback. *)
Definition accumulate (s : Sums) (point : P) : Sums :=
  let x := xKey point * xScale in
  let y := yKey point in
  {| sumX := sumX s + x;
     sumY := sumY s + y;
     sumXY := sumXY s + x * y;
     sumX2 := sumX2 s + x * x |}.

(** The body of the second [forEach] callback. *)
Definition residuals (slope intercept yMean : T) (q : Squares) (point : P)
  : Squares :=
  let x := xKey point * xScale in
  let y := yKey point in
  let yPred := slope * x + intercept in
  {| ssRes := ssRes q + sq (y - yPred);
     ssTot := ssTot q + sq (y - yMean) |}.

(** [calculateLinearRegression] with its literal 100 abstracted as
    [xScale]. *)
Definition fit (data : list P) : Fit :=
  let n := num_lit (Z.of_nat (length data)) in
  let s := fold_left accumulate data
             (mkSums (num_lit 0) (num_lit 0) (num_lit 0) (num_lit 0)) in
  let slope :=
    (n * sumXY s - sumX s * sumY s) / (n * sumX2 s - sumX s * sumX s) in
  let intercept := (sumY s - slope * sumX s) / n in
  let yMean := sumY s / n in
  let q := fold_left (residuals slope intercept yMean) data
             (mkSquares (num_lit 0) (num_lit 0)) in
  let r2 := num_lit 1 - ssRes q / ssTot q in
  {| slope := slope; intercept := intercept; r2 := r2 |}.
End Body.

(** The function of the source: the scale is the literal 100. *)
Definition calculateLinearRegression (data : list P) (xKey yKey : P -> T)
  : Fit :=
  fit (num_lit 100) xKey yKey data.

(** ** The textbook formulas, as the specification words them *)

(** Σ f over the point set, summed left to right from 0. *)
Definition Sigma (f : P -> T) (data : list P) : T :=
  fold_left (fun acc point => acc + f point) data (num_lit 0).

Section Formulas.
Variable xScale : T.
Variables xKey yKey : P -> T.
Variable data : list P.

Definition sx (point : P) : T := xKey point * xScale.
Definition count : T := num_lit (Z.of_nat (length data)).
Definition Sx : T := Sigma sx data.
Definition Sy : T := Sigma yKey data.
Definition Sxy : T := Sigma (fun p => sx p * yKey p) data.
Definition Sxx : T := Sigma (fun p => sx p * sx p) data.

(** slope = (nΣxy − ΣxΣy) / (nΣx² − (Σx)²) *)
Definition ols_denominator : T := count * Sxx - Sx * Sx.
Definition ols_slope : T := (count * Sxy - Sx * Sy) / ols_denominator.
(** intercept = (Σy − slope·Σx) / n *)
Definition ols_intercept : T := (Sy - ols_slope * Sx) / count.
(** ŷ = slope·x + intercept and ȳ = Σy / n *)
Definition y_hat (p : P) : T := ols_slope * sx p + ols_intercept.
Definition y_bar : T := Sy / count.
(** SSres = Σ(y − ŷ)², SStot = Σ(y − ȳ)², rSquared = 1 − SSres/SStot *)
Definition SSres : T := Sigma (fun p => sq (yKey p - y_hat p)) data.
Definition SStot : T := Sigma (fun p => sq (yKey p - y_bar)) data.
Definition ols_rSquared : T := num_lit 1 - SSres / SStot.
End Formulas.
End Regression.

Arguments Fit T : clear implicits.
Arguments Sums T : clear implicits.
Arguments Squares T : clear implicits.


(* ================================================================== *)
(** * JavaScript values and gene records *)

(** What [response.json()] can put in a property, plus [undefined] (the
    value of reading a property that is not there) and NaN, which a
    [VNum] can hold although JSON text cannot. *)
Inductive value : Type :=
| VUndefined
| VNull
| VBool (b : bool)
| VNum (x : float)
| VStr (s : string)
| VArr (elements : list value)
| VObj (properties : list (string * value)).

(** A gene record is a JavaScript object: a finite map from property
    names to values. *)
Abbreviation Gene := (gmap string value).

(** [gene[key]] and [gene.key]: an absent property reads as [undefined]. *)
Definition get (gene : Gene) (key : string) : value :=
  default VUndefined (gene !! key).

(** ToBoolean.  The falsy values are [undefined], [null], [false], [+0],
    [-0], NaN and the empty string. *)
Definition truthy (v : value) : bool :=
  match v with
  | VUndefined | VNull => false
  | VBool b => b
  | VNum x => negb (PrimFloat.eqb x 0 || PrimFloat.is_nan x)
  | VStr s => negb (String.eqb s "")
  | VArr _ | VObj _ => true
  end.

(** [a || b] on values: [a] when it is truthy, [b] otherwise. *)
Definition js_or (a b : value) : value := if truthy a then a else b.

(** [a === b] restricted to primitives: numbers compare as IEEE (NaN is
    not equal to itself, [-0 === +0]); arrays and objects compare by
    identity, which this model does not track, so they are never equal. *)
Definition strict_equal (a b : value) : bool :=
  match a, b with
  | VUndefined, VUndefined | VNull, VNull => true
  | VBool x, VBool y => Bool.eqb x y
  | VNum x, VNum y => PrimFloat.eqb x y
  | VStr x, VStr y => String.eqb x y
  | _, _ => false
  end.

(** How an evaluation ends: with a value, or with a thrown exception. *)
Inductive completion (E A : Type) : Type :=
| Return (a : A)
| Throw (e : E).
Arguments Return {E A} a.
Arguments Throw {E A} e.

#[export] Instance completion_bind {E} : MBind (completion E) :=
  fun A B k c =>
    match c with
    | Return a => k a
    | Throw e => Throw e
    end.

(** The one exception the modelled code can throw: calling a method on
    [undefined]/[null], or calling a property that is not a function. *)
Inductive JsError : Type := TypeError.

(* ================================================================== *)
(** * The projector: [scatterData] *)

(** The [id]s of the [regions] and [modTypes] tables, in source order. *)
Definition regions : list string :=
  ["utr5"; "utr3"; "exon"; "intron"; "total"]%string.
Definition modTypes : list string := ["ai"; "m6a"; "either"]%string.

(** The object built per gene by [scatterData]. *)
Module Point.
Record t : Type := mk { name : value; modRate : value; cpm : value; id : value }.
End Point.

Definition rateKey (selectedRegion selectedModType : string) : string :=
  selectedRegion +:+ "_" +:+ selectedModType +:+ "_rate".
Definition cpmKey (selectedRegion : string) : string :=
  selectedRegion +:+ "_cpm".

Definition scatterData (geneData : list Gene)
    (selectedRegion selectedModType : string) : list Point.t :=
  map (fun gene =>
         {| Point.name := get gene "name";
            Point.modRate :=
              js_or (get gene (rateKey selectedRegion selectedModType))
                    (VNum 0);
            Point.cpm := js_or (get gene (cpmKey selectedRegion)) (VNum 0);
            Point.id := get gene "id" |})
      geneData.

(** The numeric reading of a projected point.  The arithmetic of the
    regression is modelled on numbers only.  On a point whose [modRate] or
    [cpm] is a truthy non-number (a string, [true], an array) the source
    goes on, coercing the value in [* 100] and concatenating in [+=]; that
    coercion is not modelled, and [None] marks such a point as outside the
    model, not as a failure of the code. *)
Definition coordinates (p : Point.t) : option (float * float) :=
  match Point.modRate p, Point.cpm p with
  | VNum rate, VNum expression => Some (rate, expression)
  | _, _ => None
  end.

(** [regression]: the fit of the projected points, keys ['modRate'] and
    ['cpm'], when all coordinates are numbers ([None] otherwise, see
    [coordinates]). *)
Definition regression (scatterData : list Point.t) : option (Fit float) :=
  points ← mapM coordinates scatterData;
  Some (calculateLinearRegression points fst snd).

(** The two typed conditions the specification names for [fit].  The
    source declares neither; they are only here so that statements about
    them can be written. *)
Inductive FitCondition : Type := EmptyInputError | DegenerateFitError.

(** How a call of [calculateLinearRegression] on numeric points ends.  The
    function has no [throw], and every operation in it is total on
    numbers, so it always returns. *)
Definition fit_completion (points : list (float * float))
  : completion FitCondition (Fit float) :=
  Return (calculateLinearRegression points fst snd).

(* ================================================================== *)
(** * The fitted segment: [regressionLine] *)

Definition is_pos_zero (x : float) : bool := PrimFloat.Leibniz.eqb x 0%float.
Definition is_neg_zero (x : float) : bool :=
  PrimFloat.Leibniz.eqb x (-0)%float.

(** One iteration of [Math.min] (ECMA-262, 21.3.2.25): NaN wins, [-0] is
    below [+0], otherwise the smaller number is kept. *)
Definition min_step (lowest number : float) : float :=
  if PrimFloat.is_nan lowest || PrimFloat.is_nan number then nan
  else if is_neg_zero number && is_pos_zero lowest then number
  else if PrimFloat.ltb number lowest then number
  else lowest.

(** One iteration of [Math.max]: NaN wins, [+0] is above [-0]. *)
Definition max_step (highest number : float) : float :=
  if PrimFloat.is_nan highest || PrimFloat.is_nan number then nan
  else if is_pos_zero number && is_neg_zero highest then number
  else if PrimFloat.ltb highest number then number
  else highest.

(** [Math.min(...numbers)] and [Math.max(...numbers)]. *)
Definition Math_min (numbers : list float) : float :=
  fold_left min_step numbers infinity.
Definition Math_max (numbers : list float) : float :=
  fold_left max_step numbers neg_infinity.

Module Line.
Record point : Type := mk { x : float; y : float }.
End Line.

(** [d.modRate * 100], the abscissa both the fit and the segment use. *)
Definition scaled (d : float * float) : float := (fst d * 100)%float.

Definition regressionLine (scatterData : list (float * float))
    (regression : Fit float) : list Line.point :=
  let minX := Math_min (map scaled scatterData) in
  let maxX := Math_max (map scaled scatterData) in
  [ {| Line.x := minX;
       Line.y := (slope regression * minX + intercept regression)%float |};
    {| Line.x := maxX;
       Line.y := (slope regression * maxX + intercept regression)%float |} ].

(* ================================================================== *)
(** * The gene filter: [filteredGenes] *)

(** [String.prototype.toLowerCase] on ASCII text (characters of code below
    128), which is what gene symbols and chromosome names are: A-Z go to
    a-z and nothing else moves.  Beyond ASCII the built-in follows the
    Unicode case tables, which are not modelled; the statements below that
    depend on what lowering does to a string assume ASCII text
    ([ascii_only]). *)
Definition lower_ascii (c : ascii) : ascii :=
  let n := nat_of_ascii c in
  if (65 <=? n)%nat && (n <=? 90)%nat then ascii_of_nat (n + 32) else c.

Fixpoint toLowerCase (s : string) : string :=
  match s with
  | EmptyString => EmptyString
  | String c rest => String (lower_ascii c) (toLowerCase rest)
  end.

Fixpoint startsWith (s searchString : string) {struct searchString} : bool :=
  match searchString, s with
  | EmptyString, _ => true
  | String _ _, EmptyString => false
  | String a searchString', String b s' =>
      Ascii.eqb a b && startsWith s' searchString'
  end.

(** [s.includes(searchString)]: [searchString] occurs at some position. *)
Fixpoint includes (s searchString : string) : bool :=
  startsWith s searchString ||
  match s with
  | EmptyString => false
  | String _ s' => includes s' searchString
  end.

(** [v.toLowerCase()]: a [TypeError] unless [v] is a string
    ([undefined.toLowerCase] cannot be read, and on a number, boolean,
    array or parsed object the property is not a function). *)
Definition call_toLowerCase (v : value) : completion JsError string :=
  match v with
  | VStr s => Return (toLowerCase s)
  | _ => Throw TypeError
  end.

(** The callback handed to [geneData.filter], with [||] and [&&]
    short-circuiting as in the source; the result is read by ToBoolean. *)
Definition matchesTerm (searchTerm : string) (gene : Gene)
  : completion JsError bool :=
  name ← call_toLowerCase (get gene "name");
  if includes name (toLowerCase searchTerm) then Return true
  else
    let chromosome := get gene "chromosome" in
    if truthy chromosome then
      lowered ← call_toLowerCase chromosome;
      Return (includes lowered (toLowerCase searchTerm))
    else Return false.

(** [Array.prototype.filter] with a callback that may throw: elements are
    visited in order and the first exception aborts the call. *)
Fixpoint array_filter {E A : Type} (callback : A -> completion E bool)
    (array : list A) : completion E (list A) :=
  match array with
  | [] => Return []
  | element :: rest =>
      keep ← callback element;
      kept ← array_filter callback rest;
      Return (if keep : bool then element :: kept else kept)
  end.

Definition filteredGenes (geneData : list Gene) (searchTerm : string)
  : completion JsError (list Gene) :=
  if String.eqb searchTerm "" then Return geneData
  else array_filter (matchesTerm searchTerm) geneData.

(* ================================================================== *)
(** * The loader: [loadData] *)

(** What one [fetch] followed by [response.json()] can deliver: a rejected
    fetch (with the error's message), or a response with its [ok] flag and
    the outcome of parsing its body (a rejection message, or the array). *)
Inductive fetched : Type :=
| Rejected (message : string)
| Responded (ok : bool) (json : string + list Gene).

(** The component state the loader writes. *)
Record AppState : Type := mkState {
  geneDataMR01_1 : list Gene;
  geneDataMR01_2 : list Gene;
  isLoading : bool;
  loadError : option string
}.

(** The [useState] initial values. *)
Definition initialState : AppState :=
  {| geneDataMR01_1 := []; geneDataMR01_2 := [];
     isLoading := true; loadError := None |}.

Definition setGeneDataMR01_1 (data : list Gene) (st : AppState) : AppState :=
  {| geneDataMR01_1 := data; geneDataMR01_2 := geneDataMR01_2 st;
     isLoading := isLoading st; loadError := loadError st |}.
Definition setGeneDataMR01_2 (data : list Gene) (st : AppState) : AppState :=
  {| geneDataMR01_1 := geneDataMR01_1 st; geneDataMR01_2 := data;
     isLoading := isLoading st; loadError := loadError st |}.
Definition setIsLoading (b : bool) (st : AppState) : AppState :=
  {| geneDataMR01_1 := geneDataMR01_1 st;
     geneDataMR01_2 := geneDataMR01_2 st;
     isLoading := b; loadError := loadError st |}.
Definition setLoadError (message : string) (st : AppState) : AppState :=
  {| geneDataMR01_1 := geneDataMR01_1 st;
     geneDataMR01_2 := geneDataMR01_2 st;
     isLoading := isLoading st; loadError := Some message |}.

(** [await fetch(url)], the [response.ok] test and [await response.json()]:
    the parsed array, or the message of the error that reaches [catch]. *)
Definition fetch_json (failure : string) (r : fetched)
  : completion string (list Gene) :=
  match r with
  | Rejected message => Throw message
  | Responded false _ => Throw failure
  | Responded true (inl message) => Throw message
  | Responded true (inr data) => Return data
  end.

(** The [try] block of [loadData], statement by statement, and its
    [catch]. *)
Definition loadData (response1 response2 : fetched) (st : AppState)
  : AppState :=
  let st := setIsLoading true st in
  match fetch_json "Failed to load MR01_1 data" response1 with
  | Throw message => setIsLoading false (setLoadError message st)
  | Return data1 =>
      let st := setGeneDataMR01_1 data1 st in
      match fetch_json "Failed to load MR01_2 data" response2 with
      | Throw message => setIsLoading false (setLoadError message st)
      | Return data2 => setIsLoading false (setGeneDataMR01_2 data2 st)
      end
  end.

(** [geneData]: the dataset of the selected sample. *)
Definition geneData (st : AppState) (selectedSample : string) : list Gene :=
  if String.eqb selectedSample "MR01_1" then geneDataMR01_1 st
  else geneDataMR01_2 st.

(* ================================================================== *)
(** * The selection state, its lookups and its handlers *)

(** A row of the [samples] and [modTypes] tables. *)
Module Choice.
Record t : Type := mk { id : string; label : string; color : string }.
End Choice.

(** A row of the [regions] table; [feature] is [null] for the total. *)
Module Region.
Record t : Type :=
  mk { id : string; label : string; color : string; feature : option string }.
End Region.

Definition samples : list Choice.t :=
  [ Choice.mk "MR01_1" "MR01-1" "#9B59B6";
    Choice.mk "MR01_2" "MR01-2" "#E74C3C" ].

(** The [regions] table with all its columns ([regions] above is its
    column of ids). *)
Definition regionEntries : list Region.t :=
  [ Region.mk "utr5" "5' UTR" "#FF6B9D" (Some "UTR_5");
    Region.mk "utr3" "3' UTR" "#4ECDC4" (Some "UTR_3");
    Region.mk "exon" "Exonic" "#FFE66D" (Some "Exon");
    Region.mk "intron" "Intronic" "#95E1D3" (Some "Intron");
    Region.mk "total" "Total Gene" "#A8E6CF" None ].

(** The [modTypes] table with all its columns. *)
Definition modTypeEntries : list Choice.t :=
  [ Choice.mk "ai" "% A-to-I" "#FF6B9D";
    Choice.mk "m6a" "% m6A" "#4ECDC4";
    Choice.mk "either" "% Either Modification" "#C7CEEA" ].

(** What [selectedGene] holds: [null] (initially, and after a change of
    sample), [undefined] (a [find] that found nothing) or a gene. *)
Inductive selected : Type :=
| SelNull
| SelUndefined
| SelGene (gene : Gene).

(** The five [useState] cells of the selection. *)
Record Selection : Type := mkSelection {
  selectedSample : string;
  selectedRegion : string;
  selectedModType : string;
  searchTerm : string;
  selectedGene : selected
}.

Definition initialSelection : Selection :=
  {| selectedSample := "MR01_1"; selectedRegion := "utr5";
     selectedModType := "ai"; searchTerm := ""; selectedGene := SelNull |}.

(** [samples.find(s => s.id === selectedSample)] and its two siblings;
    [None] is [undefined]. *)
Definition currentSample (sel : Selection) : option Choice.t :=
  List.find (fun s => String.eqb (Choice.id s) (selectedSample sel)) samples.
Definition currentRegion (sel : Selection) : option Region.t :=
  List.find (fun r => String.eqb (Region.id r) (selectedRegion sel))
            regionEntries.
Definition currentModType (sel : Selection) : option Choice.t :=
  List.find (fun m => String.eqb (Choice.id m) (selectedModType sel))
            modTypeEntries.

(** The values on which [===] is the comparison of [strict_equal]: all
    but arrays and objects, which compare by identity. *)
Definition primitive (v : value) : bool :=
  match v with
  | VArr _ | VObj _ => false
  | _ => true
  end.

(** [geneData.find(g => g.id === data.id)], as [setSelectedGene] receives
    it. *)
Definition findGene (geneData : list Gene) (data : Point.t) : selected :=
  match List.find (fun g => strict_equal (get g "id") (Point.id data))
                  geneData with
  | Some gene => SelGene gene
  | None => SelUndefined
  end.

(** What the user can do on the main screen. *)
Inductive event : Type :=
| SampleClick (sample : Choice.t)
| RegionClick (region : Region.t)
| ModTypeClick (modType : Choice.t)
| SearchChange (value : string)
| PointClick (data : Point.t)
| GeneClick (gene : Gene).

(** The [onClick] and [onChange] handlers, each with the state setters it
    calls. *)
Definition handle (app : AppState) (ev : event) (sel : Selection)
  : Selection :=
  match ev with
  | SampleClick sample =>
      {| selectedSample := Choice.id sample;
         selectedRegion := selectedRegion sel;
         selectedModType := selectedModType sel;
         searchTerm := searchTerm sel;
         selectedGene := SelNull |}
  | RegionClick region =>
      {| selectedSample := selectedSample sel;
         selectedRegion := Region.id region;
         selectedModType := selectedModType sel;
         searchTerm := searchTerm sel;
         selectedGene := selectedGene sel |}
  | ModTypeClick modType =>
      {| selectedSample := selectedSample sel;
         selectedRegion := selectedRegion sel;
         selectedModType := Choice.id modType;
         searchTerm := searchTerm sel;
         selectedGene := selectedGene sel |}
  | SearchChange value =>
      {| selectedSample := selectedSample sel;
         selectedRegion := selectedRegion sel;
         selectedModType := selectedModType sel;
         searchTerm := value;
         selectedGene := selectedGene sel |}
  | PointClick data =>
      {| selectedSample := selectedSample sel;
         selectedRegion := selectedRegion sel;
         selectedModType := selectedModType sel;
         searchTerm := searchTerm sel;
         selectedGene := findGene (geneData app (selectedSample sel)) data |}
  | GeneClick gene =>
      {| selectedSample := selectedSample sel;
         selectedRegion := selectedRegion sel;
         selectedModType := selectedModType sel;
         searchTerm := searchTerm sel;
         selectedGene := SelGene gene |}
  end.

(** The three returns of the component: the loading screen while
    [isLoading], the error screen when [loadError] is truthy (a non-empty
    message), the main screen otherwise. *)
Inductive Screen : Type :=
| LoadingScreen
| ErrorScreen (message : string)
| MainScreen.

Definition screen (app : AppState) : Screen :=
  if isLoading app then LoadingScreen
  else match loadError app with
       | Some message =>
           if String.eqb message "" then MainScreen else ErrorScreen message
       | None => MainScreen
       end.

(** The events the main screen offers: one button per row of each table,
    the search box, one dot per projected point (with an [id] that [===]
    compares by value) and one button per filtered gene. *)
Definition offered (app : AppState) (sel : Selection) (ev : event) : Prop :=
  screen app = MainScreen /\
  match ev with
  | SampleClick sample => sample ∈ samples
  | RegionClick region => region ∈ regionEntries
  | ModTypeClick modType => modType ∈ modTypeEntries
  | SearchChange _ => True
  | PointClick data =>
      data ∈ scatterData (geneData app (selectedSample sel))
               (selectedRegion sel) (selectedModType sel) /\
      primitive (Point.id data) = true
  | GeneClick gene =>
      exists shown,
        filteredGenes (geneData app (selectedSample sel)) (searchTerm sel) =
          Return shown /\
        gene ∈ shown
  end.

(** The selections the user can reach from the initial one. *)
Inductive reachable (app : AppState) : Selection -> Prop :=
| reachable_initial : reachable app initialSelection
| reachable_step (sel : Selection) (ev : event) :
    reachable app sel -> offered app sel ev ->
    reachable app (handle app ev sel).

(* ================================================================== *)
(** * Vocabulary of the statements *)

(** ** Sample data *)

(** The record of three NaNs. *)
Definition nan_fit : Fit float :=
  {| slope := nan; intercept := nan; r2 := nan |}.

(** The dataset of the end-to-end scenario. *)
Definition scenario : list Gene :=
  [ {[ "id" := VNum 1; "name" := VStr "A";
       "utr5_ai_rate" := VNum 0.1; "utr5_cpm" := VNum 10 ]};
    {[ "id" := VNum 2; "name" := VStr "B";
       "utr5_ai_rate" := VNum 0.2; "utr5_cpm" := VNum 20 ]};
    {[ "id" := VNum 3; "name" := VStr "B2";
       "utr5_ai_rate" := VNum 0.3; "utr5_cpm" := VNum 30 ]} ].


(** A record with a string name whose chromosome is the number 7. *)
Definition numeric_chromosome_gene : Gene :=
  {[ "id" := VNum 1; "name" := VStr "A"; "chromosome" := VNum 7 ]}.

(** A record with neither [id] nor [name]. *)
Definition nameless_gene : Gene := {[ "utr5_ai_rate" := VNum 0.5 ]}.

(** ** Projection *)

(** The property [field] of a record gives the coordinate: an absent
    property gives the number 0, and a property holding a number other than
    NaN gives that number (a zero of either sign gives 0). *)
Definition field_gives (field : option value) (coordinate : value) : Prop :=
  (field = None -> coordinate = VNum 0) /\
  (forall x, field = Some (VNum x) -> PrimFloat.is_nan x = false ->
             coordinate = VNum x \/
             (PrimFloat.eqb x 0 = true /\ coordinate = VNum 0)).

(** ** Sums over the reals *)

(** The sum of [f] over a list, as a recursive function. *)
Fixpoint rsum {P : Type} (f : P -> R) (l : list P) : R :=
  match l with
  | [] => 0%R
  | p :: rest => (f p + rsum f rest)%R
  end.

(** n Sxx - Sx^2 for the abscissas [x]. *)
Definition spread {P : Type} (x : P -> R) (l : list P) : R :=
  (INR (length l) * rsum (fun p => x p * x p) l - rsum x l * rsum x l)%R.

(** ** The order of doubles

    The comparisons of primitive floats are specified on [spec_float].  A
    value that is not NaN is sent to a triple of integers whose
    lexicographic order is the order of the comparison. *)

Definition key (f : spec_float) : Z * Z * Z :=
  match f with
  | S754_zero _ => (0, 0, 0)
  | S754_infinity true => (-2, 0, 0)
  | S754_infinity false => (2, 0, 0)
  | S754_nan => (0, 0, 0)
  | S754_finite false m e => (1, e, Zpos m)
  | S754_finite true m e => (-1, - e, Zneg m)
  end%Z.

Definition klt (k1 k2 : Z * Z * Z) : Prop :=
  let '(a1, b1, c1) := k1 in
  let '(a2, b2, c2) := k2 in
  (a1 < a2 \/ (a1 = a2 /\ (b1 < b2 \/ (b1 = b2 /\ c1 < c2))))%Z.

Definition kle (k1 k2 : Z * Z * Z) : Prop :=
  let '(a1, b1, c1) := k1 in
  let '(a2, b2, c2) := k2 in
  (a1 < a2 \/ (a1 = a2 /\ (b1 < b2 \/ (b1 = b2 /\ c1 <= c2))))%Z.

Definition fle (x y : float) : Prop := PrimFloat.leb x y = true.

(** What holds of the accumulator [r] of a fold that keeps the best
    element, once the numbers [seen] are consumed; [le r x] reads "[r] is
    at least as extreme as [x]". *)
Definition best_of (le : float -> float -> Prop) (init : float)
    (r : float) (seen : list float) : Prop :=
  PrimFloat.is_nan r = false /\
  (forall y, y ∈ seen -> le r y) /\
  (r ∈ seen \/ (r = init /\ seen = [])).

(** ** Matching, as the specification words it *)

(** ASCII text: every character has a code below 128. *)
Fixpoint ascii_only (s : string) : bool :=
  match s with
  | EmptyString => true
  | String c rest => (nat_of_ascii c <? 128)%nat && ascii_only rest
  end.

(** Two characters are the same letter up to case: they are equal, or one
    is a capital letter A-Z (codes 65 to 90) and the other is the small
    letter, 32 codes above it. *)
Definition same_letter (a b : ascii) : Prop :=
  a = b \/
  ((65 <= nat_of_ascii a <= 90)%nat /\
   nat_of_ascii b = (nat_of_ascii a + 32)%nat) \/
  ((65 <= nat_of_ascii b <= 90)%nat /\
   nat_of_ascii a = (nat_of_ascii b + 32)%nat).

(** Two strings are equal under a case-insensitive comparison: they have
    the same length and, position by position, the same letter up to
    case. *)
Fixpoint equal_ignoring_case (u t : string) : Prop :=
  match u, t with
  | EmptyString, EmptyString => True
  | String a u', String b t' => same_letter a b /\ equal_ignoring_case u' t'
  | _, _ => False
  end.

(** [t] is a substring of [s] under a case-insensitive comparison: some
    substring [u] of [s] equals [t] up to case. *)
Definition occurs_ignoring_case (t s : string) : Prop :=
  exists pre u post, s = pre +:+ u +:+ post /\ equal_ignoring_case u t.



(** The typing of a gene record in the data model: [name] is a string and
    [chromosome] is absent or a string. *)
Definition well_formed (gene : Gene) : Prop :=
  (exists s, gene !! "name" = Some (VStr s)) /\
  (gene !! "chromosome" = None \/
   exists c, gene !! "chromosome" = Some (VStr c)).

(** The name and the chromosome of the record, when strings, are ASCII
    text. *)
Definition ascii_record (gene : Gene) : Prop :=
  forall s, gene !! "name" = Some (VStr s) \/
            gene !! "chromosome" = Some (VStr s) ->
            ascii_only s = true.

(** What the callback needs in order not to throw. *)
Definition safe (gene : Gene) : Prop :=
  (exists s, get gene "name" = VStr s) /\
  (truthy (get gene "chromosome") = false \/
   exists c, get gene "chromosome" = VStr c).

(** The boolean the callback computes on a safe record. *)
Definition field_includes (v : value) (term : string) : bool :=
  match v with
  | VStr s => includes (toLowerCase s) (toLowerCase term)
  | _ => false
  end.

Definition keeps (term : string) (gene : Gene) : bool :=
  field_includes (get gene "name") term ||
  field_includes (get gene "chromosome") term.

(** ** The records on which the filter callback throws *)

(** A value that is truthy and not a string: [true], a number other than
    0, -0 and NaN, an array or an object. *)
Definition truthy_not_string (v : value) : Prop :=
  match v with
  | VBool b => b = true
  | VNum x => PrimFloat.eqb x 0 = false /\ PrimFloat.is_nan x = false
  | VArr _ | VObj _ => True
  | VUndefined | VNull | VStr _ => False
  end.

(** A record is faulty for a term when the callback cannot finish on it:
    its name is not a string, or its name is a string that does not contain
    the term while its chromosome is truthy and not a string. *)
Definition faulty (term : string) (gene : Gene) : Prop :=
  (forall s, gene !! "name" <> Some (VStr s)) \/
  (exists s v, gene !! "name" = Some (VStr s) /\
               ~ occurs_ignoring_case term s /\
               gene !! "chromosome" = Some v /\ truthy_not_string v).

(** ** The squared error of a line *)

(** The sum over the points of (cpm - (a * (rate * 100) + b))^2. *)
Definition squared_error {P : Type} (xKey yKey : P -> R) (a b : R)
    (data : list P) : R :=
  rsum (fun p => let e := (yKey p - (a * (xKey p * 100) + b))%R in (e * e)%R)
       data.

(* ================================================================== *)
(** * Properties of the regression *)

Section RegressionFacts.
Context {T : Type} `{Number T} {P : Type}.
Local Open Scope num_scope.
Variable xScale : T.
Variables xKey yKey : P -> T.

(** The single loop over four accumulators computes the four sums. *)
Lemma accumulate_sums (data : list P) (s : Sums T) :
  fold_left (accumulate xScale xKey yKey) data s =
  {| sumX := fold_left (fun a p => a + sx xScale xKey p) data (sumX s);
     sumY := fold_left (fun a p => a + yKey p) data (sumY s);
     sumXY := fold_left (fun a p => a + sx xScale xKey p * yKey p) data
                (sumXY s);
     sumX2 := fold_left
                (fun a p => a + sx xScale xKey p * sx xScale xKey p) data
                (sumX2 s) |}.
Proof.
  revert s; induction data as [|p data IH]; intros s.
  - destruct s; reflexivity.
  - cbn [fold_left]. rewrite IH. reflexivity.
Qed.

(** The second loop computes the two sums of squares. *)
Lemma residuals_sums (a b m : T) (data : list P) (q : Squares T) :
  fold_left (residuals xScale xKey yKey a b m) data q =
  {| ssRes := fold_left
                (fun acc p => acc + sq (yKey p - (a * sx xScale xKey p + b)))
                data (ssRes q);
     ssTot := fold_left (fun acc p => acc + sq (yKey p - m)) data (ssTot q) |}.
Proof.
  revert q; induction data as [|p data IH]; intros q.
  - destruct q; reflexivity.
  - cbn [fold_left]. rewrite IH. reflexivity.
Qed.

(** On every point list, in every arithmetic, [fit] returns the three
    textbook quantities. *)
Lemma fit_formulas (data : list P) :
  fit xScale xKey yKey data =
  {| slope := ols_slope xScale xKey yKey data;
     intercept := ols_intercept xScale xKey yKey data;
     r2 := ols_rSquared xScale xKey yKey data |}.
Proof.
  unfold fit. rewrite accumulate_sums. cbn [sumX sumY sumXY sumX2].
  rewrite residuals_sums. reflexivity.
Qed.
End RegressionFacts.

(* ------------------------------------------------------------------ *)
(** ** Evaluation on doubles *)

(** C5.  On the three-record dataset with utr5_ai_rate 0.1, 0.2, 0.3 and
    utr5_cpm 10, 20, 30, the projection for region utr5 and modification ai
    is the points (0.1,10), (0.2,20), (0.3,30), and the regression of these
    points (rates scaled by 100) is exactly slope 1, intercept 0, r2 1, in
    double arithmetic. *)
Theorem scenario_end_to_end :
  scatterData scenario "utr5" "ai" =
    [ Point.mk (VStr "A") (VNum 0.1) (VNum 10) (VNum 1);
      Point.mk (VStr "B") (VNum 0.2) (VNum 20) (VNum 2);
      Point.mk (VStr "B2") (VNum 0.3) (VNum 30) (VNum 3) ] /\
  mapM coordinates (scatterData scenario "utr5" "ai") =
    Some [(0.1, 10); (0.2, 20); (0.3, 30)]%float /\
  regression (scatterData scenario "utr5" "ai") =
    Some {| slope := 1; intercept := 0; r2 := 1 |}%float.
Proof. vm_compute. repeat split. Qed.

(** C2, refuted.  [calculateLinearRegression] raises nothing: on the empty
    list, and on the constant-x points (5,1), (5,3), (5,9), it returns the
    record of three NaNs; on seven points of constant rate 0.0011 the
    rounded denominator is not even zero and it returns an infinite slope
    and intercept. *)
Lemma degenerate_fit_returns_nan :
  fit_completion [] = Return nan_fit /\
  fit_completion [] <> Throw EmptyInputError /\
  fit_completion [(5, 1); (5, 3); (5, 9)]%float = Return nan_fit /\
  fit_completion [(5, 1); (5, 3); (5, 9)]%float <> Throw DegenerateFitError /\
  fit_completion [(0.0011, 1); (0.0011, 3); (0.0011, 9); (0.0011, 4);
                  (0.0011, 4); (0.0011, 4); (0.0011, 4)]%float =
    Return {| slope := neg_infinity; intercept := infinity; r2 := nan |}.
Proof. vm_compute. repeat split; discriminate. Qed.

(* ------------------------------------------------------------------ *)
(** ** Exact arithmetic: the regression over the reals *)

Section RealRegression.
Context {P : Type}.
Local Open Scope R_scope.

Lemma fold_left_rsum (f : P -> R) (l : list P) (a : R) :
  fold_left (fun acc p => num_add acc (f p)) l a = a + rsum f l.
Proof.
  revert a; induction l as [|p l IH]; intros a; cbn.
  - ring.
  - rewrite IH. ring.
Qed.

Lemma Sigma_rsum (f : P -> R) (l : list P) : Sigma f l = rsum f l.
Proof. unfold Sigma. rewrite fold_left_rsum. cbn. ring. Qed.

Lemma count_INR (l : list P) : count l = INR (length l).
Proof. unfold count. cbn. symmetry. apply INR_IZR_INZ. Qed.

Lemma rsum_ext (f g : P -> R) (l : list P) :
  (forall p, p ∈ l -> f p = g p) -> rsum f l = rsum g l.
Proof.
  induction l as [|p l IH]; intros E; cbn; [reflexivity|].
  rewrite (E p) by apply list_elem_of_here.
  rewrite IH; [reflexivity|].
  intros q Hq. apply E. now apply list_elem_of_further.
Qed.

Lemma rsum_scale (c : R) (f : P -> R) (l : list P) :
  rsum (fun p => f p * c) l = c * rsum f l.
Proof. induction l as [|p l IH]; cbn; [ring|rewrite IH; ring]. Qed.

Lemma rsum_nonneg (f : P -> R) (l : list P) :
  (forall p, 0 <= f p) -> 0 <= rsum f l.
Proof.
  intros F; induction l as [|p l IH]; cbn; [lra|]. specialize (F p). lra.
Qed.

Lemma rsum_ge_term (f : P -> R) (l : list P) (q : P) :
  (forall p, 0 <= f p) -> q ∈ l -> f q <= rsum f l.
Proof.
  intros F; induction l as [|p l IH]; intros Hq.
  - inversion Hq.
  - cbn. apply elem_of_cons in Hq as [->|Hq].
    + pose proof (rsum_nonneg f l F). lra.
    + specialize (IH Hq). specialize (F p). lra.
Qed.

Lemma rsum_square_distance (x : P -> R) (a : R) (l : list P) :
  rsum (fun q => (a - x q) * (a - x q)) l =
  INR (length l) * (a * a) - 2 * a * rsum x l + rsum (fun p => x p * x p) l.
Proof.
  induction l as [|p l IH].
  - cbn. ring.
  - cbn [rsum]. rewrite IH. cbn [length]. rewrite S_INR. ring.
Qed.

Lemma spread_cons (x : P -> R) (a : P) (l : list P) :
  spread x (a :: l) =
  spread x l + rsum (fun q => (x a - x q) * (x a - x q)) l.
Proof.
  unfold spread. rewrite rsum_square_distance.
  cbn [rsum length]. rewrite S_INR. ring.
Qed.

Lemma square_nonneg (u : R) : 0 <= u * u.
Proof. nra. Qed.

Lemma spread_nonneg (x : P -> R) (l : list P) : 0 <= spread x l.
Proof.
  induction l as [|a l IH].
  - unfold spread; cbn. lra.
  - rewrite spread_cons.
    pose proof (rsum_nonneg (fun q => (x a - x q) * (x a - x q)) l
                  (fun q => square_nonneg _)). lra.
Qed.

(** The denominator of the slope is positive as soon as two abscissas
    differ. *)
Lemma spread_pos (x : P -> R) (l : list P) :
  (exists p q, p ∈ l /\ q ∈ l /\ x p <> x q) -> 0 < spread x l.
Proof.
  induction l as [|a l IH]; intros (p & q & Hp & Hq & Hne).
  - inversion Hp.
  - rewrite spread_cons.
    pose proof (spread_nonneg x l) as Hs.
    pose proof (rsum_nonneg (fun q => (x a - x q) * (x a - x q)) l
                  (fun q => square_nonneg _)) as Hr.
    assert (forall r, r ∈ l -> x a <> x r ->
              0 < rsum (fun q => (x a - x q) * (x a - x q)) l) as far.
    { intros r Hr' Hd.
      pose proof (rsum_ge_term (fun q => (x a - x q) * (x a - x q)) l r
                    (fun q => square_nonneg _) Hr').
      cbv beta in *. assert (0 < (x a - x r) * (x a - x r)) by nra. lra. }
    apply elem_of_cons in Hp as [->|Hp];
      apply elem_of_cons in Hq as [->|Hq].
    + congruence.
    + specialize (far q Hq Hne). lra.
    + assert (x a <> x p) as Hne' by congruence.
      specialize (far p Hp Hne'). lra.
    + assert (0 < spread x l) by (apply IH; eauto). lra.
Qed.

Lemma rsum_const (k : R) (l : list P) :
  rsum (fun _ => k) l = INR (length l) * k.
Proof.
  induction l as [|p l IH]; cbn [rsum length].
  - cbn. ring.
  - rewrite IH, S_INR. ring.
Qed.

(** The denominator vanishes when all abscissas coincide. *)
Lemma spread_constant (x : P -> R) (a : R) (l : list P) :
  (forall p, p ∈ l -> x p = a) -> spread x l = 0.
Proof.
  intros E. unfold spread.
  rewrite (rsum_ext x (fun _ => a) l E).
  rewrite (rsum_ext (fun p => x p * x p) (fun _ => a * a) l).
  2:{ intros p Hp. now rewrite (E p Hp). }
  rewrite !rsum_const. ring.
Qed.

Variables xKey yKey : P -> R.
Variable data : list P.

Lemma Sx_scaled (c : R) : Sx c xKey data = c * rsum xKey data.
Proof. unfold Sx. rewrite Sigma_rsum. apply rsum_scale. Qed.

Lemma Sxy_scaled (c : R) :
  Sxy c xKey yKey data = c * rsum (fun p => xKey p * yKey p) data.
Proof.
  unfold Sxy. rewrite Sigma_rsum.
  rewrite <- rsum_scale. apply rsum_ext. intros p _. unfold sx. cbn. ring.
Qed.

Lemma Sxx_scaled (c : R) :
  Sxx c xKey data = c * c * rsum (fun p => xKey p * xKey p) data.
Proof.
  unfold Sxx. rewrite Sigma_rsum.
  rewrite <- rsum_scale. apply rsum_ext. intros p _. unfold sx. cbn. ring.
Qed.

Lemma ols_denominator_scaled (c : R) :
  ols_denominator c xKey data = c * c * spread xKey data.
Proof.
  unfold ols_denominator. rewrite Sxx_scaled, Sx_scaled, count_INR.
  unfold spread. cbn. ring.
Qed.

Lemma ols_slope_scaled (c : R) :
  c <> 0 -> spread xKey data <> 0 ->
  ols_slope c xKey yKey data = ols_slope 1 xKey yKey data / c.
Proof.
  intros Hc Hd. unfold ols_slope.
  rewrite !ols_denominator_scaled, !Sxy_scaled, !Sx_scaled.
  cbn. field. auto.
Qed.

Lemma ols_intercept_scaled (c : R) :
  c <> 0 -> spread xKey data <> 0 ->
  ols_intercept c xKey yKey data = ols_intercept 1 xKey yKey data.
Proof.
  intros Hc Hd. unfold ols_intercept.
  rewrite (ols_slope_scaled c Hc Hd), !Sx_scaled.
  generalize (ols_slope 1 xKey yKey data); intros s1. cbn.
  replace (s1 / c * (c * rsum xKey data)) with (s1 * (1 * rsum xKey data))
    by (field; assumption).
  reflexivity.
Qed.

Lemma y_hat_scaled (c : R) (p : P) :
  c <> 0 -> spread xKey data <> 0 ->
  y_hat c xKey yKey data p = y_hat 1 xKey yKey data p.
Proof.
  intros Hc Hd. unfold y_hat.
  rewrite (ols_intercept_scaled c Hc Hd), (ols_slope_scaled c Hc Hd).
  generalize (ols_slope 1 xKey yKey data) (ols_intercept 1 xKey yKey data).
  intros s1 i1. unfold sx. cbn. field. assumption.
Qed.

Lemma ols_rSquared_scaled (c : R) :
  c <> 0 -> spread xKey data <> 0 ->
  ols_rSquared c xKey yKey data = ols_rSquared 1 xKey yKey data.
Proof.
  intros Hc Hd. unfold ols_rSquared, SSres, SStot.
  rewrite !Sigma_rsum.
  rewrite (rsum_ext (fun p => sq (num_sub (yKey p) (y_hat c xKey yKey data p)))
             (fun p => sq (num_sub (yKey p) (y_hat 1 xKey yKey data p)))).
  - reflexivity.
  - intros p _. now rewrite (y_hat_scaled c p Hc Hd).
Qed.

(** *** The formulas are the least-squares solution *)

(** The sum of squared errors of the line y = a x + b, expanded. *)
Lemma rsum_squared_error (X Y : P -> R) (a b : R) (l : list P) :
  rsum (fun p => (Y p - (a * X p + b)) * (Y p - (a * X p + b))) l =
  rsum (fun p => Y p * Y p) l - 2 * a * rsum (fun p => X p * Y p) l
  - 2 * b * rsum Y l + a * a * rsum (fun p => X p * X p) l
  + 2 * a * b * rsum X l + INR (length l) * (b * b).
Proof.
  induction l as [|p l IH].
  - cbn. ring.
  - cbn [rsum length]. rewrite IH, S_INR. ring.
Qed.

(** The two normal equations: the residuals of the fitted line sum to
    zero, and so do the residuals weighted by x. *)
Lemma normal_equations (c : R) :
  data <> [] -> ols_denominator c xKey data <> 0 ->
  Sy yKey data =
    ols_slope c xKey yKey data * Sx c xKey data
    + count data * ols_intercept c xKey yKey data /\
  Sxy c xKey yKey data =
    ols_slope c xKey yKey data * Sxx c xKey data
    + ols_intercept c xKey yKey data * Sx c xKey data.
Proof.
  intros Hne Hd.
  assert (count data <> 0) as Hn.
  { rewrite count_INR. destruct data; [congruence|].
    cbn [length]. apply not_0_INR. discriminate. }
  unfold ols_intercept, ols_slope. unfold ols_denominator in *.
  generalize dependent (count data). generalize (Sx c xKey data).
  generalize (Sy yKey data). generalize (Sxy c xKey yKey data).
  generalize (Sxx c xKey data). cbn. intros Q Sxy' Sy' S n Hd Hn.
  split; field; auto.
Qed.

(** Among all lines, the fitted one has the least sum of squared errors:
    the formulas are the ordinary-least-squares solution whenever the
    point set is non-empty and its scaled x values are not all equal. *)
Lemma fitted_line_is_least_squares (c a b : R) :
  data <> [] ->
  (exists p q, p ∈ data /\ q ∈ data /\ sx c xKey p <> sx c xKey q) ->
  SSres c xKey yKey data <=
  rsum (fun p => sq (yKey p - (a * sx c xKey p + b))) data.
Proof.
  intros Hne Hx.
  assert (ols_denominator c xKey data <> 0) as Hd.
  { unfold ols_denominator, Sxx, Sx. rewrite !Sigma_rsum, count_INR.
    apply Rgt_not_eq, Rlt_gt. now apply (spread_pos (sx c xKey)). }
  destruct (normal_equations c Hne Hd) as [N1 N2].
  unfold SSres. rewrite Sigma_rsum. unfold y_hat, sq.
  set (a' := ols_slope c xKey yKey data) in *.
  set (b' := ols_intercept c xKey yKey data) in *.
  change (rsum (fun p => (yKey p - (a' * sx c xKey p + b')) *
                         (yKey p - (a' * sx c xKey p + b'))) data <=
          rsum (fun p => (yKey p - (a * sx c xKey p + b)) *
                         (yKey p - (a * sx c xKey p + b))) data).
  pose proof (rsum_nonneg
    (fun p => ((a' - a) * sx c xKey p + (b' - b)) *
              ((a' - a) * sx c xKey p + (b' - b))) data
    (fun p => square_nonneg _)) as Hpos.
  pose proof (rsum_squared_error (sx c xKey) (fun _ => 0) (a - a') (b - b')
                data) as Hq.
  rewrite (rsum_ext _ (fun p => ((a' - a) * sx c xKey p + (b' - b)) *
                                ((a' - a) * sx c xKey p + (b' - b))) data)
    in Hq by (intros p _; ring).
  rewrite !rsum_const in Hq.
  rewrite (rsum_ext (fun p => sx c xKey p * 0) (fun _ => 0) data) in Hq
    by (intros p _; ring).
  rewrite rsum_const in Hq.
  rewrite !rsum_squared_error.
  unfold Sy, Sxy, Sxx, Sx in N1, N2. rewrite !Sigma_rsum in N1, N2.
  rewrite count_INR in N1.
  cbn [num_mul real_number] in N2. rewrite ?Sigma_rsum in N2.
  rewrite N1, N2. rewrite Hq in Hpos. lra.
Qed.
End RealRegression.

(* ------------------------------------------------------------------ *)
(** ** The returned coefficients are the ordinary-least-squares ones *)

(** An array length, read as a double. *)
Lemma count_float {P : Type} (data : list P) :
  count (T := float) data =
  PrimFloat.of_uint63 (Uint63.of_Z (Z.of_nat (length data))).
Proof.
  unfold count. cbn [num_lit float_number]. unfold float_of_Z.
  now rewrite (proj2 (Z.ltb_ge _ _) (Nat2Z.is_nonneg (length data))).
Qed.

(** C1.  For every non-empty point set whose scaled x values are not all
    identical, [calculateLinearRegression] computes the
    ordinary-least-squares coefficients with each rate first multiplied by
    100.  In exact arithmetic, with x = rate * 100, y = cpm and n the number
    of points: n and n Sxx - Sx^2 are not zero, so the three quotients are
    defined;
    slope = (n Sxy - Sx Sy) / (n Sxx - Sx^2),
    intercept = (Sy - slope Sx) / n,
    r2 = 1 - SSres / SStot with SSres the sum of (y - yhat)^2, SStot the sum
    of (y - ybar)^2, yhat = slope x + intercept and ybar = Sy / n;
    and no line y = a x + b has a smaller sum of squared errors than the
    returned one.  In double arithmetic, on every point list, the three
    fields are the same three formulas with every operation rounded and
    every sum taken left to right from 0, as the loops of the source do. *)
Theorem regression_is_ordinary_least_squares :
  (forall (P : Type) (data : list P) (xKey yKey : P -> R),
      data <> [] ->
      (exists p q, p ∈ data /\ q ∈ data /\
                   (xKey p * 100 <> xKey q * 100)%R) ->
      let result := calculateLinearRegression data xKey yKey in
      let n := INR (length data) in
      let x := fun p => (xKey p * 100)%R in
      let y := yKey in
      let sum_x := rsum x data in
      let sum_y := rsum y data in
      let sum_xy := rsum (fun p => x p * y p)%R data in
      let sum_xx := rsum (fun p => x p * x p)%R data in
      let y_pred := fun p => (slope result * x p + intercept result)%R in
      let y_mean := (sum_y / n)%R in
      let ss_res :=
        rsum (fun p => (y p - y_pred p) * (y p - y_pred p))%R data in
      let ss_tot :=
        rsum (fun p => (y p - y_mean) * (y p - y_mean))%R data in
      (n <> 0 /\ n * sum_xx - sum_x * sum_x <> 0)%R /\
      slope result =
        ((n * sum_xy - sum_x * sum_y) / (n * sum_xx - sum_x * sum_x))%R /\
      intercept result = ((sum_y - slope result * sum_x) / n)%R /\
      r2 result = (1 - ss_res / ss_tot)%R /\
      (forall a b : R,
          (ss_res <=
           rsum (fun p => (y p - (a * x p + b)) * (y p - (a * x p + b)))
                data)%R)) /\
  (forall (Q : Type) (points : list Q) (rate cpm : Q -> float),
      let fitted := calculateLinearRegression points rate cpm in
      let m := PrimFloat.of_uint63 (Uint63.of_Z (Z.of_nat (length points))) in
      let u := fun p => (rate p * 100)%float in
      let total := fun f : Q -> float =>
        fold_left (fun acc p => (acc + f p)%float) points 0%float in
      let v_pred := fun p => (slope fitted * u p + intercept fitted)%float in
      let v_mean := (total cpm / m)%float in
      slope fitted =
        ((m * total (fun p => u p * cpm p) - total u * total cpm) /
         (m * total (fun p => u p * u p) - total u * total u))%float /\
      intercept fitted = ((total cpm - slope fitted * total u) / m)%float /\
      r2 fitted =
        (1 - total (fun p => (cpm p - v_pred p) * (cpm p - v_pred p)) /
             total (fun p => (cpm p - v_mean) * (cpm p - v_mean)))%float).
Proof.
  split.
  - intros P data xKey yKey Hne Hx. cbv zeta.
    assert (INR (length data) <> 0%R) as Hn.
    { destruct data; [congruence|]. cbn [length].
      apply not_0_INR. discriminate. }
    assert (0 < spread (fun p => xKey p * 100) data)%R as Hd
      by now apply spread_pos.
    unfold calculateLinearRegression. rewrite fit_formulas.
    cbn [slope intercept r2].
    split; [split; [exact Hn|]|].
    { apply Rgt_not_eq, Rlt_gt. exact Hd. }
    split.
    { unfold ols_slope, ols_denominator, Sxy, Sx, Sy, Sxx.
      rewrite !Sigma_rsum, count_INR. reflexivity. }
    split.
    { unfold ols_intercept, Sx, Sy. rewrite !Sigma_rsum, count_INR.
      reflexivity. }
    split.
    { unfold ols_rSquared, SSres, SStot. rewrite !Sigma_rsum.
      unfold y_bar, Sy. rewrite !Sigma_rsum, count_INR. reflexivity. }
    intros a b.
    pose proof (fitted_line_is_least_squares xKey yKey data (num_lit 100) a b
                  Hne Hx) as L.
    unfold SSres in L. rewrite Sigma_rsum in L. exact L.
  - intros Q points rate cpm.
    unfold calculateLinearRegression. rewrite fit_formulas.
    cbn [slope intercept r2].
    unfold ols_rSquared, SSres, SStot, y_bar, y_hat, ols_intercept, ols_slope,
      ols_denominator, Sxy, Sxx, Sx, Sy. rewrite !count_float.
    repeat split.
Qed.

(** C1 at the points (1,2), (2,4), (3,7) over the reals: the scaled
    abscissas are 100, 200, 300, the slope is 1/40 and the intercept
    -2/3. *)
Lemma regression_is_ordinary_least_squares_witness :
  let data := [(1, 2); (2, 4); (3, 7)]%R in
  let result := calculateLinearRegression data fst snd in
  slope result = (1 / 40)%R /\ intercept result = (- 2 / 3)%R.
Proof.
  intros data result.
  assert (data <> []) as Hne by discriminate.
  assert (exists p q, p ∈ data /\ q ∈ data /\
                      (fst p * 100 <> fst q * 100)%R) as Hx.
  { exists (1, 2)%R, (2, 4)%R.
    split; [apply list_elem_of_here|].
    split; [apply list_elem_of_further, list_elem_of_here|].
    cbn. lra. }
  destruct (proj1 regression_is_ordinary_least_squares _ data fst snd Hne Hx)
    as (_ & Hs & Hi & _).
  fold result in Hs, Hi. split.
  - rewrite Hs. subst data. cbn [rsum length INR fst snd]. field.
  - rewrite Hi, Hs. subst data. cbn [rsum length INR fst snd]. field.
Defined.

(** C6, refuted as stated.  In double arithmetic, at the points (1,3),
    (2,5), (3,7), replacing the scale 1 by 100 leaves the intercept at 1
    (the claim has it change).  At the points (1,1), (2,3), (4,4), (5,9)
    the same replacement moves r2 in its last digits (the claim has it
    exactly unchanged), and at the points (0.1,3), (0.2,5), (0.4,8) the
    slope at scale 100 is not the slope at scale 1 divided by 100. *)
Lemma scaling_counterexample :
  (let data := [(1, 3); (2, 5); (3, 7)]%float in
   intercept (fit 1%float fst snd data) = 1%float /\
   intercept (fit 100%float fst snd data) = 1%float) /\
  (let data := [(1, 1); (2, 3); (4, 4); (5, 9)]%float in
   r2 (fit 1%float fst snd data) = 0.83165467625899281%float /\
   r2 (fit 100%float fst snd data) = 0.8316546762589927%float /\
   r2 (fit 100%float fst snd data) <> r2 (fit 1%float fst snd data)) /\
  (let data := [(0.1, 3); (0.2, 5); (0.4, 8)]%float in
   (slope (fit 1%float fst snd data) / 100 = 0.1642857142857142)%float /\
   slope (fit 100%float fst snd data) = 0.16428571428571428%float).
Proof.
  vm_compute. repeat split. intros E.
  pose proof (f_equal (fun u => PrimFloat.ltb u 0.83165467625899281%float) E)
    as F.
  vm_compute in F. discriminate F.
Qed.

(** C6, amended.  In exact real arithmetic, for every point set on which
    the fit is well-defined (non-empty, scaled x not constant, SStot not
    zero) and every nonzero scale c, the slope fitted at scale c is the
    unscaled slope divided by c, the intercept is the unscaled intercept,
    and r2 is the unscaled r2. *)
Theorem scaling_law_exact {P : Type}
    (data : list P) (xKey yKey : P -> R) (c : R) :
  data <> [] ->
  c <> 0%R ->
  (exists p q, p ∈ data /\ q ∈ data /\ sx c xKey p <> sx c xKey q) ->
  SStot yKey data <> 0%R ->
  let scaled := fit c xKey yKey data in
  let unscaled := fit 1%R xKey yKey data in
  slope scaled = (slope unscaled / c)%R /\
  intercept scaled = intercept unscaled /\
  r2 scaled = r2 unscaled.
Proof.
  intros _ Hc (p & q & Hp & Hq & Hne) _ scaled unscaled.
  assert (spread xKey data <> 0%R) as Hd.
  { apply Rgt_not_eq, Rlt_gt, spread_pos. exists p, q.
    repeat split; try assumption. intros E. apply Hne. unfold sx.
    now rewrite E. }
  subst scaled unscaled. rewrite !fit_formulas. cbn [slope intercept r2].
  split; [|split].
  - now apply ols_slope_scaled.
  - now apply ols_intercept_scaled.
  - now apply ols_rSquared_scaled.
Qed.

(** The amended C6 at the points (1,1), (2,3), (4,4), (5,9) and scale 100. *)
Lemma scaling_law_exact_witness :
  let data := [(1, 1); (2, 3); (4, 4); (5, 9)]%R in
  let scaled := fit 100%R fst snd data in
  let unscaled := fit 1%R fst snd data in
  slope scaled = (slope unscaled / 100)%R /\
  intercept scaled = intercept unscaled /\
  r2 scaled = r2 unscaled.
Proof.
  apply (scaling_law_exact [(1, 1); (2, 3); (4, 4); (5, 9)]%R fst snd 100%R).
  - discriminate.
  - lra.
  - exists (1, 1)%R, (2, 3)%R.
    split; [apply list_elem_of_here|].
    split; [apply list_elem_of_further, list_elem_of_here|].
    unfold sx; cbn. lra.
  - unfold SStot. rewrite Sigma_rsum. unfold y_bar, Sy, count.
    rewrite Sigma_rsum. unfold sq. cbn.
    change (Z.of_nat 4) with 4%Z. lra.
Defined.

(** C2, amended.  [calculateLinearRegression] raises no error: on every
    list of numeric points it returns a record.  On the empty list, and on
    the constant-x points (5,1), (5,3), (5,9), the three fields are NaN.  In
    exact arithmetic the slope's denominator n Sxx - Sx^2 is zero on every
    point set with constant x, and the source divides by it unguarded. *)
Theorem fit_never_raises :
  (forall points, exists result, fit_completion points = Return result) /\
  fit_completion [] = Return nan_fit /\
  fit_completion [(5, 1); (5, 3); (5, 9)]%float = Return nan_fit /\
  (forall (data : list (R * R)) (a : R),
      (forall p, p ∈ data -> fst p = a) ->
      ols_denominator (num_lit 100) fst data = 0%R).
Proof.
  split; [|split; [|split]].
  - intros points. eexists. reflexivity.
  - vm_compute. reflexivity.
  - vm_compute. reflexivity.
  - intros data a E. rewrite ols_denominator_scaled.
    rewrite (spread_constant fst a data E). cbn. ring.
Qed.

(* ================================================================== *)
(** * Properties of the projector *)

Lemma get_present (gene : Gene) (key : string) (v : value) :
  gene !! key = Some v -> get gene key = v.
Proof. unfold get. now intros ->. Qed.

Lemma get_absent (gene : Gene) (key : string) :
  gene !! key = None -> get gene key = VUndefined.
Proof. unfold get. now intros ->. Qed.

Lemma js_or_zero_absent (gene : Gene) (key : string) :
  gene !! key = None -> js_or (get gene key) (VNum 0) = VNum 0.
Proof. intros E. now rewrite (get_absent gene key E). Qed.


Lemma js_or_zero_gives (gene : Gene) (key : string) :
  field_gives (gene !! key) (js_or (get gene key) (VNum 0)).
Proof.
  split.
  - apply js_or_zero_absent.
  - intros x E N. rewrite (get_present gene key _ E). unfold js_or.
    destruct (truthy (VNum x)) eqn:Tr; [now left|right].
    cbn [truthy] in Tr. apply negb_false_iff in Tr.
    unfold PrimFloat.is_nan in N. apply negb_false_iff in N.
    fold (PrimFloat.is_nan x) in Tr.
    split; [|reflexivity].
    apply orb_true_iff in Tr as [Z|Z]; [exact Z|].
    unfold PrimFloat.is_nan in Z. rewrite N in Z. discriminate.
Qed.

(** The [i]-th projected point is built from the [i]-th record. *)
Lemma scatterData_lookup (ds : list Gene) (region modType : string)
    (i : nat) (gene : Gene) :
  ds !! i = Some gene ->
  scatterData ds region modType !! i =
  Some {| Point.name := get gene "name";
          Point.modRate := js_or (get gene (rateKey region modType)) (VNum 0);
          Point.cpm := js_or (get gene (cpmKey region)) (VNum 0);
          Point.id := get gene "id" |}.
Proof.
  intros E. unfold scatterData.
  revert i E; induction ds as [|g ds IH]; intros [|i] E; try discriminate.
  - injection E as ->. reflexivity.
  - cbn. now apply IH.
Qed.

(** The "Total Gene" region reads the [total_*] fields. *)
Example total_region_keys :
  rateKey "total" "either" = "total_either_rate" /\
  cpmKey "total" = "total_cpm".
Proof. split; reflexivity. Qed.

(** C3.  For every dataset, every region among the five identifiers and
    every modification type among the three, the projection has one point
    per record, in dataset order: the [i]-th point carries the [id] (and
    the name) of the [i]-th record, its rate comes from the record's field
    named <region>_<modType>_rate and its expression from the record's
    field named <region>_cpm, an absent field giving 0; nothing is raised
    (the projection is a total function). *)
Theorem projection_follows_dataset
    (ds : list Gene) (region modType : string) :
  region ∈ ["utr5"; "utr3"; "exon"; "intron"; "total"] ->
  modType ∈ ["ai"; "m6a"; "either"] ->
  length (scatterData ds region modType) = length ds /\
  forall (i : nat) (gene : Gene),
    ds !! i = Some gene ->
    exists p,
      scatterData ds region modType !! i = Some p /\
      Point.id p = default VUndefined (gene !! "id") /\
      Point.name p = default VUndefined (gene !! "name") /\
      field_gives (gene !! (region +:+ "_" +:+ modType +:+ "_rate"))
                  (Point.modRate p) /\
      field_gives (gene !! (region +:+ "_cpm")) (Point.cpm p).
Proof.
  intros _ _. split.
  - unfold scatterData. apply length_map.
  - intros i gene E. eexists. split; [apply scatterData_lookup, E|].
    cbn [Point.id Point.name Point.modRate Point.cpm].
    split; [reflexivity|]. split; [reflexivity|].
    split.
    + exact (js_or_zero_gives gene (rateKey region modType)).
    + exact (js_or_zero_gives gene (cpmKey region)).
Qed.

(** C3 at the scenario dataset, region utr5 and modification ai: the
    second point is built from the second record, whose fields
    utr5_ai_rate and utr5_cpm hold 0.2 and 20. *)
Lemma projection_follows_dataset_witness :
  scatterData scenario "utr5" "ai" !! 1%nat =
    Some (Point.mk (VStr "B") (VNum 0.2) (VNum 20) (VNum 2)) /\
  exists p,
    scatterData scenario "utr5" "ai" !! 1%nat = Some p /\
    Point.id p = VNum 2 /\
    Point.name p = VStr "B" /\
    field_gives (Some (VNum 0.2)) (Point.modRate p) /\
    field_gives (Some (VNum 20)) (Point.cpm p).
Proof.
  split; [reflexivity|].
  assert ("utr5" ∈ ["utr5"; "utr3"; "exon"; "intron"; "total"]) as Hr
    by apply list_elem_of_here.
  assert ("ai" ∈ ["ai"; "m6a"; "either"]) as Hm by apply list_elem_of_here.
  exact (proj2 (projection_follows_dataset scenario "utr5" "ai" Hr Hm) 1%nat
           {[ "id" := VNum 2; "name" := VStr "B";
              "utr5_ai_rate" := VNum 0.2; "utr5_cpm" := VNum 20 ]}
           eq_refl).
Defined.



(* ================================================================== *)
(** * Properties of the fitted segment *)

(** ** The order of doubles *)

Ltac compare_cases :=
  repeat match goal with
  | |- context [Z.compare ?a ?b] => destruct (Z.compare_spec a b); subst
  | |- context [Pos.compare_cont Eq ?a ?b] =>
      change (Pos.compare_cont Eq a b) with (Pos.compare a b);
      destruct (Pos.compare_spec a b); subst
  end.

Lemma SFltb_key (f1 f2 : spec_float) :
  f1 <> S754_nan -> f2 <> S754_nan ->
  SFltb f1 f2 = true <-> klt (key f1) (key f2).
Proof.
  intros N1 N2.
  destruct f1 as [s1|s1| |s1 m1 e1], f2 as [s2|s2| |s2 m2 e2];
    try congruence; try destruct s1; try destruct s2;
    unfold SFltb, SFcompare, klt, key; compare_cases; cbn;
    split; intros; try discriminate; try reflexivity; lia.
Qed.

Lemma SFleb_key (f1 f2 : spec_float) :
  f1 <> S754_nan -> f2 <> S754_nan ->
  SFleb f1 f2 = true <-> kle (key f1) (key f2).
Proof.
  intros N1 N2.
  destruct f1 as [s1|s1| |s1 m1 e1], f2 as [s2|s2| |s2 m2 e2];
    try congruence; try destruct s1; try destruct s2;
    unfold SFleb, SFcompare, kle, key; compare_cases; cbn;
    split; intros; try discriminate; try reflexivity; lia.
Qed.

Lemma SFleb_not_nan (f1 f2 : spec_float) :
  SFleb f1 f2 = true -> f1 <> S754_nan /\ f2 <> S754_nan.
Proof.
  destruct f1, f2; cbn; intros E; try discriminate; split; discriminate.
Qed.

Lemma is_nan_spec (x : float) :
  PrimFloat.is_nan x = false <-> Prim2SF x <> S754_nan.
Proof.
  unfold PrimFloat.is_nan. rewrite FloatAxioms.eqb_spec.
  destruct (Prim2SF x) as [s|s| |s m e]; try destruct s;
    unfold SFeqb, SFcompare; cbn;
    rewrite ?Z.compare_refl, ?Pos.compare_cont_refl; cbn;
    split; intros; try discriminate; try reflexivity; congruence.
Qed.


Lemma fle_refl (x : float) : PrimFloat.is_nan x = false -> fle x x.
Proof.
  intros N. apply is_nan_spec in N. unfold fle. rewrite leb_spec.
  apply SFleb_key; try assumption.
  unfold kle. destruct (key (Prim2SF x)) as [[a b] c]. lia.
Qed.

Lemma fle_trans (x y z : float) : fle x y -> fle y z -> fle x z.
Proof.
  unfold fle. rewrite !leb_spec. intros A B.
  destruct (SFleb_not_nan _ _ A) as [Nx Ny].
  destruct (SFleb_not_nan _ _ B) as [_ Nz].
  apply SFleb_key in A; try assumption.
  apply SFleb_key in B; try assumption.
  apply SFleb_key; try assumption.
  unfold kle in *.
  destruct (key (Prim2SF x)) as [[a1 b1] c1],
           (key (Prim2SF y)) as [[a2 b2] c2],
           (key (Prim2SF z)) as [[a3 b3] c3]. lia.
Qed.

Lemma flt_fle (x y : float) : PrimFloat.ltb x y = true -> fle x y.
Proof.
  unfold fle. rewrite ltb_spec, leb_spec. intros A.
  assert (Prim2SF x <> S754_nan /\ Prim2SF y <> S754_nan) as [Nx Ny].
  { destruct (Prim2SF x), (Prim2SF y); try discriminate; split; discriminate. }
  apply SFltb_key in A; try assumption. apply SFleb_key; try assumption.
  unfold klt, kle in *.
  destruct (key (Prim2SF x)) as [[a1 b1] c1],
           (key (Prim2SF y)) as [[a2 b2] c2]. lia.
Qed.

Lemma not_flt_fle (x y : float) :
  PrimFloat.is_nan x = false -> PrimFloat.is_nan y = false ->
  PrimFloat.ltb x y = false -> fle y x.
Proof.
  intros Nx Ny. apply is_nan_spec in Nx, Ny.
  unfold fle. rewrite ltb_spec, leb_spec. intros A.
  apply SFleb_key; try assumption.
  assert (~ klt (key (Prim2SF x)) (key (Prim2SF y))) as B.
  { intros C. apply SFltb_key in C; try assumption. congruence. }
  unfold klt, kle in *.
  destruct (key (Prim2SF x)) as [[a1 b1] c1],
           (key (Prim2SF y)) as [[a2 b2] c2]. lia.
Qed.

Lemma fle_infinity (x : float) : fle infinity x -> x = infinity.
Proof.
  unfold fle. rewrite leb_spec. intros A. apply Prim2SF_inj.
  change (Prim2SF infinity) with (S754_infinity false) in *.
  destruct (Prim2SF x) as [s|s| |s m e]; try destruct s; now cbn in A.
Qed.

Lemma fle_neg_infinity (x : float) : fle x neg_infinity -> x = neg_infinity.
Proof.
  unfold fle. rewrite leb_spec. intros A. apply Prim2SF_inj.
  change (Prim2SF neg_infinity) with (S754_infinity true) in *.
  destruct (Prim2SF x) as [s|s| |s m e]; try destruct s; now cbn in A.
Qed.

(** ** A fold that keeps the best element seen *)

Section Extremum.
(** [le r x]: [r] is at least as extreme as [x]. *)
Variable le : float -> float -> Prop.
Variable step : float -> float -> float.
Variable init : float.
Hypothesis le_refl : forall x, PrimFloat.is_nan x = false -> le x x.
Hypothesis le_trans : forall x y z, le x y -> le y z -> le x z.
Hypothesis le_init : forall x, le init x -> x = init.
Hypothesis step_spec : forall r x,
  PrimFloat.is_nan r = false -> PrimFloat.is_nan x = false ->
  (step r x = x /\ le x r) \/ (step r x = r /\ le r x).

Lemma best_of_step (r x : float) (seen : list float) :
  best_of le init r seen -> PrimFloat.is_nan x = false ->
  best_of le init (step r x) (seen ++ [x]).
Proof using le_refl le_trans le_init step_spec.
  intros (Nr & Hle & Hin) Nx.
  destruct (step_spec r x Nr Nx) as [[-> Hxr]|[-> Hrx]].
  - split; [assumption|]. split.
    + intros y Hy. apply elem_of_app in Hy as [Hy|Hy].
      * eapply le_trans; [exact Hxr|]. now apply Hle.
      * apply list_elem_of_singleton in Hy as ->. now apply le_refl.
    + left. apply elem_of_app. right. apply list_elem_of_here.
  - split; [assumption|]. split.
    + intros y Hy. apply elem_of_app in Hy as [Hy|Hy].
      * now apply Hle.
      * now apply list_elem_of_singleton in Hy as ->.
    + left. apply elem_of_app. destruct Hin as [Hin|[-> ->]].
      * now left.
      * right. rewrite (le_init x Hrx). apply list_elem_of_here.
Qed.

Lemma best_of_fold (numbers seen : list float) (r : float) :
  best_of le init r seen ->
  Forall (fun x => PrimFloat.is_nan x = false) numbers ->
  best_of le init (fold_left step numbers r) (seen ++ numbers).
Proof using le_refl le_trans le_init step_spec.
  revert seen r. induction numbers as [|x numbers IH]; intros seen r B F.
  - now rewrite app_nil_r.
  - apply Forall_cons in F as [Nx F]. cbn [fold_left].
    replace (seen ++ x :: numbers) with ((seen ++ [x]) ++ numbers)
      by (now rewrite <- app_assoc).
    apply IH; [|assumption]. now apply best_of_step.
Qed.

Lemma fold_selects_extremum (numbers : list float) :
  PrimFloat.is_nan init = false ->
  numbers <> [] ->
  Forall (fun x => PrimFloat.is_nan x = false) numbers ->
  fold_left step numbers init ∈ numbers /\
  forall x, x ∈ numbers -> le (fold_left step numbers init) x.
Proof using le_refl le_trans le_init step_spec.
  intros Ni Hne F.
  assert (best_of le init init []) as B.
  { split; [assumption|]. split; [intros y Hy; inversion Hy|now right]. }
  destruct (best_of_fold numbers [] init B F) as (_ & Hle & Hin).
  cbn [app] in *. split; [|assumption].
  destruct Hin as [Hin|[_ E]]; [assumption|contradiction].
Qed.
End Extremum.

Lemma is_pos_zero_spec (x : float) : is_pos_zero x = true -> x = 0%float.
Proof. apply FloatAxioms.Leibniz.eqb_spec. Qed.

Lemma is_neg_zero_spec (x : float) : is_neg_zero x = true -> x = (-0)%float.
Proof. apply FloatAxioms.Leibniz.eqb_spec. Qed.

Lemma min_step_spec (r x : float) :
  PrimFloat.is_nan r = false -> PrimFloat.is_nan x = false ->
  (min_step r x = x /\ fle x r) \/ (min_step r x = r /\ fle r x).
Proof.
  intros Nr Nx. unfold min_step. rewrite Nr, Nx. cbn [orb].
  destruct (is_neg_zero x && is_pos_zero r) eqn:Z.
  - apply andb_true_iff in Z as [Zx Zr].
    apply is_neg_zero_spec in Zx as ->. apply is_pos_zero_spec in Zr as ->.
    left. split; reflexivity.
  - destruct (PrimFloat.ltb x r) eqn:L.
    + left. split; [reflexivity|]. now apply flt_fle.
    + right. split; [reflexivity|]. now apply not_flt_fle.
Qed.

Lemma max_step_spec (r x : float) :
  PrimFloat.is_nan r = false -> PrimFloat.is_nan x = false ->
  (max_step r x = x /\ fle r x) \/ (max_step r x = r /\ fle x r).
Proof.
  intros Nr Nx. unfold max_step. rewrite Nr, Nx. cbn [orb].
  destruct (is_pos_zero x && is_neg_zero r) eqn:Z.
  - apply andb_true_iff in Z as [Zx Zr].
    apply is_pos_zero_spec in Zx as ->. apply is_neg_zero_spec in Zr as ->.
    left. split; reflexivity.
  - destruct (PrimFloat.ltb r x) eqn:L.
    + left. split; [reflexivity|]. now apply flt_fle.
    + right. split; [reflexivity|]. now apply not_flt_fle.
Qed.

(** [Math.min] of a non-empty list without NaN is an element of the list
    that is below every element. *)
Lemma Math_min_is_minimum (numbers : list float) :
  numbers <> [] ->
  Forall (fun x => PrimFloat.is_nan x = false) numbers ->
  Math_min numbers ∈ numbers /\
  forall x, x ∈ numbers -> PrimFloat.leb (Math_min numbers) x = true.
Proof.
  apply (fold_selects_extremum fle min_step infinity).
  - exact fle_refl.
  - exact fle_trans.
  - exact fle_infinity.
  - exact min_step_spec.
  - reflexivity.
Qed.

(** [Math.max] of a non-empty list without NaN is an element of the list
    that is above every element. *)
Lemma Math_max_is_maximum (numbers : list float) :
  numbers <> [] ->
  Forall (fun x => PrimFloat.is_nan x = false) numbers ->
  Math_max numbers ∈ numbers /\
  forall x, x ∈ numbers -> PrimFloat.leb x (Math_max numbers) = true.
Proof.
  apply (fold_selects_extremum (fun r x => fle x r) max_step neg_infinity).
  - exact fle_refl.
  - intros x y z A B. exact (fle_trans z y x B A).
  - exact fle_neg_infinity.
  - exact max_step_spec.
  - reflexivity.
Qed.

(** The abscissa of the segment is the abscissa of the fit. *)
Lemma scaled_is_fit_abscissa (d : float * float) :
  scaled d = sx (num_lit 100) fst d.
Proof. reflexivity. Qed.

(** C7.  For every non-empty point set (whose scaled x values are numbers,
    not NaN) and every fitted coefficients, [regressionLine] returns exactly
    two points; the x of the first is the minimum and the x of the second
    the maximum of the scaled x values [modRate * 100] -- the abscissas the
    fit itself uses -- and the y of each is slope * x + intercept. *)
Theorem regressionLine_endpoints
    (points : list (float * float)) (regression : Fit float) :
  points <> [] ->
  (forall d, d ∈ points ->
             PrimFloat.is_nan (sx (num_lit 100) fst d) = false) ->
  exists minX maxX,
    regressionLine points regression =
      [ {| Line.x := minX;
           Line.y := (slope regression * minX + intercept regression)%float |};
        {| Line.x := maxX;
           Line.y := (slope regression * maxX + intercept regression)%float |} ]
    /\ (exists d, d ∈ points /\ minX = sx (num_lit 100) fst d)
    /\ (forall d, d ∈ points ->
                  PrimFloat.leb minX (sx (num_lit 100) fst d) = true)
    /\ (exists d, d ∈ points /\ maxX = sx (num_lit 100) fst d)
    /\ (forall d, d ∈ points ->
                  PrimFloat.leb (sx (num_lit 100) fst d) maxX = true).
Proof.
  intros Hne Hnan.
  set (xs := map scaled points).
  assert (xs <> []) as Hxs by (destruct points; [congruence|discriminate]).
  assert (Forall (fun x => PrimFloat.is_nan x = false) xs) as F.
  { apply Forall_forall. intros x Hx. apply list_elem_of_In, in_map_iff in Hx.
    destruct Hx as (d & <- & Hd). apply Hnan. now apply list_elem_of_In. }
  destruct (Math_min_is_minimum xs Hxs F) as [Imin Lmin].
  destruct (Math_max_is_maximum xs Hxs F) as [Imax Lmax].
  assert (forall d, d ∈ points -> scaled d ∈ xs) as Hmem.
  { intros d Hd. apply list_elem_of_In, in_map. now apply list_elem_of_In. }
  exists (Math_min xs), (Math_max xs). split; [reflexivity|].
  repeat split.
  - apply list_elem_of_In, in_map_iff in Imin as (d & E & Hd).
    exists d. split; [now apply list_elem_of_In|]. now rewrite <- E.
  - intros d Hd. rewrite <- scaled_is_fit_abscissa. apply Lmin, Hmem, Hd.
  - apply list_elem_of_In, in_map_iff in Imax as (d & E & Hd).
    exists d. split; [now apply list_elem_of_In|]. now rewrite <- E.
  - intros d Hd. rewrite <- scaled_is_fit_abscissa. apply Lmax, Hmem, Hd.
Qed.

(** C7 at the points (0.1,3), (0.2,5), (0.4,8) with their fitted line. *)
Lemma regressionLine_endpoints_witness :
  let points := [(0.1, 3); (0.2, 5); (0.4, 8)]%float in
  let regression := calculateLinearRegression points fst snd in
  exists minX maxX,
    regressionLine points regression =
      [ {| Line.x := minX;
           Line.y := (slope regression * minX + intercept regression)%float |};
        {| Line.x := maxX;
           Line.y := (slope regression * maxX + intercept regression)%float |} ]
    /\ (exists d, d ∈ points /\ minX = sx (num_lit 100) fst d)
    /\ (forall d, d ∈ points ->
                  PrimFloat.leb minX (sx (num_lit 100) fst d) = true)
    /\ (exists d, d ∈ points /\ maxX = sx (num_lit 100) fst d)
    /\ (forall d, d ∈ points ->
                  PrimFloat.leb (sx (num_lit 100) fst d) maxX = true).
Proof.
  intros points regression.
  apply (regressionLine_endpoints points regression).
  - discriminate.
  - intros d Hd. apply list_elem_of_In in Hd. cbn in Hd.
    destruct Hd as [<-|[<-|[<-|[]]]]; vm_compute; reflexivity.
Defined.

(* ================================================================== *)
(** * Properties of the gene filter *)

(** ** Strings *)

(** The two computation rules of string concatenation. *)
Ltac append_rules :=
  repeat match goal with
  | |- context [String.append (String ?a ?s) ?t] =>
      change (String.append (String a s) t) with (String a (String.append s t))
  | |- context [String.append EmptyString ?t] =>
      change (String.append EmptyString t) with t
  | H : context [String.append (String ?a ?s) ?t] |- _ =>
      change (String.append (String a s) t)
        with (String a (String.append s t)) in H
  | H : context [String.append EmptyString ?t] |- _ =>
      change (String.append EmptyString t) with t in H
  end.

Lemma toLowerCase_append (a b : string) :
  toLowerCase (a +:+ b) = toLowerCase a +:+ toLowerCase b.
Proof.
  induction a as [|x a IH]; cbn [toLowerCase]; append_rules;
    cbn [toLowerCase]; [reflexivity|now rewrite IH].
Qed.

(** A split of the lowered string is the lowering of a split. *)
Lemma toLowerCase_split (s a b : string) :
  toLowerCase s = a +:+ b ->
  exists s1 s2, s = s1 +:+ s2 /\ toLowerCase s1 = a /\ toLowerCase s2 = b.
Proof.
  revert s; induction a as [|x a IH]; intros s E; append_rules.
  - exists EmptyString, s. repeat split. exact E.
  - destruct s as [|y s]; [discriminate|]. cbn [toLowerCase] in E.
    injection E as Ex E. destruct (IH s E) as (s1 & s2 & -> & <- & <-).
    exists (String y s1), s2. append_rules. cbn [toLowerCase].
    now rewrite Ex.
Qed.

Lemma toLowerCase_empty (s : string) :
  toLowerCase s = EmptyString -> s = EmptyString.
Proof. destruct s; [reflexivity|discriminate]. Qed.

(** Lowering sends two characters to the same one exactly when they are
    the same letter up to case. *)
Lemma lower_ascii_same (a b : ascii) :
  lower_ascii a = lower_ascii b <-> same_letter a b.
Proof.
  assert (forall k c, (k < 256)%nat ->
            (ascii_of_nat k = c <-> k = nat_of_ascii c)) as A1.
  { intros k c Hk. split; intros E.
    - subst c. now rewrite nat_ascii_embedding.
    - subst k. apply ascii_nat_embedding. }
  assert (forall k c, (k < 256)%nat ->
            (c = ascii_of_nat k <-> nat_of_ascii c = k)) as A1'.
  { intros k c Hk. split; intros E.
    - subst c. now rewrite nat_ascii_embedding.
    - subst k. symmetry. apply ascii_nat_embedding. }
  assert (forall c d, c = d <-> nat_of_ascii c = nat_of_ascii d) as A2.
  { intros c d. split; [now intros ->|]. intros E.
    rewrite <- (ascii_nat_embedding c), E. apply ascii_nat_embedding. }
  pose proof (nat_ascii_bounded a) as Ba.
  pose proof (nat_ascii_bounded b) as Bb.
  unfold lower_ascii, same_letter. rewrite (A2 a b).
  destruct (Nat.leb_spec 65 (nat_of_ascii a));
    destruct (Nat.leb_spec (nat_of_ascii a) 90);
    destruct (Nat.leb_spec 65 (nat_of_ascii b));
    destruct (Nat.leb_spec (nat_of_ascii b) 90); cbn [andb];
    rewrite ?A1 by lia; rewrite ?A1' by lia;
    rewrite ?nat_ascii_embedding by lia; rewrite ?(A2 a b); lia.
Qed.

(** The comparison of the source -- equality of the lowered strings -- is
    the case-insensitive comparison. *)
Lemma equal_ignoring_case_lowered (u t : string) :
  equal_ignoring_case u t <-> toLowerCase u = toLowerCase t.
Proof.
  revert t; induction u as [|a u IH]; intros [|b t];
    cbn [equal_ignoring_case toLowerCase].
  - split; auto.
  - split; [contradiction|discriminate].
  - split; [contradiction|discriminate].
  - rewrite <- lower_ascii_same, IH. split.
    + intros [-> ->]. reflexivity.
    + intros E. injection E. auto.
Qed.

Lemma startsWith_spec (s t : string) :
  startsWith s t = true <-> exists post, s = t +:+ post.
Proof.
  revert s; induction t as [|a t IH]; intros s; cbn [startsWith].
  - split; [intros _; now exists s|reflexivity].
  - destruct s as [|b s].
    + split; [discriminate|intros [post E]; discriminate].
    + rewrite andb_true_iff, IH, Ascii.eqb_eq. split.
      * intros [-> [post ->]]. now exists post.
      * intros [post E]. append_rules. injection E as -> ->.
        split; [reflexivity|]. now exists post.
Qed.

Lemma includes_spec (s t : string) :
  includes s t = true <-> exists pre post, s = pre +:+ t +:+ post.
Proof.
  induction s as [|b s IH]; cbn [includes]; rewrite orb_true_iff.
  - rewrite startsWith_spec. split.
    + intros [[post E]|F]; [|discriminate]. now exists EmptyString, post.
    + intros (pre & post & E). left.
      destruct pre; [now exists post|discriminate].
  - rewrite startsWith_spec, IH. split.
    + intros [[post E]|(pre & post & E)].
      * now exists EmptyString, post.
      * exists (String b pre), post. append_rules. now rewrite E.
    + intros (pre & post & E). destruct pre as [|c pre]; append_rules.
      * left. now exists post.
      * right. injection E as _ E. now exists pre, post.
Qed.

(** The test of the source -- lower both sides, then [includes] -- decides
    the case-insensitive substring relation. *)
Lemma includes_lowered_spec (s t : string) :
  includes (toLowerCase s) (toLowerCase t) = true <->
  occurs_ignoring_case t s.
Proof.
  rewrite includes_spec. split.
  - intros (pre & post & E).
    apply toLowerCase_split in E as (s1 & s23 & -> & <- & E).
    apply toLowerCase_split in E as (s2 & s3 & -> & E & <-).
    exists s1, s2, s3. split; [reflexivity|].
    now apply equal_ignoring_case_lowered.
  - intros (pre & u & post & -> & E).
    apply equal_ignoring_case_lowered in E.
    exists (toLowerCase pre), (toLowerCase post).
    now rewrite !toLowerCase_append, E.
Qed.



Lemma includes_empty (t : string) :
  t <> EmptyString -> includes EmptyString t = false.
Proof. destruct t; [congruence|reflexivity]. Qed.

(** ** The callback and the filter *)

Lemma matchesTerm_safe (term : string) (gene : Gene) :
  term <> EmptyString -> safe gene ->
  matchesTerm term gene = Return (keeps term gene).
Proof.
  intros Ht [[s Hn] Hc]. unfold matchesTerm, keeps. rewrite Hn.
  cbn -[includes].
  destruct (includes (toLowerCase s) (toLowerCase term)); [reflexivity|].
  cbn [orb].
  assert (forall c, truthy (VStr c) = false ->
            field_includes (VStr c) term = false) as empty.
  { intros c Hf. cbn in Hf. apply negb_false_iff, String.eqb_eq in Hf as ->.
    cbn [field_includes toLowerCase]. apply includes_empty.
    intros E. now apply toLowerCase_empty in E. }
  destruct Hc as [Hf|[c Hc]].
  - rewrite Hf. destruct (get gene "chromosome") as [| |b|x|c|l|l];
      try reflexivity; try discriminate.
    now rewrite (empty c Hf).
  - rewrite Hc. destruct (truthy (VStr c)) eqn:Tr; [reflexivity|].
    now rewrite (empty c Tr).
Qed.

Lemma array_filter_total {E A : Type}
    (callback : A -> completion E bool) (keep : A -> bool) (array : list A) :
  Forall (fun a => callback a = Return (keep a)) array ->
  array_filter callback array = Return (List.filter keep array).
Proof.
  induction 1 as [|a array Ha _ IH]; [reflexivity|].
  cbn. rewrite Ha. cbn. rewrite IH. cbn. now destruct (keep a).
Qed.

Lemma well_formed_safe (gene : Gene) : well_formed gene -> safe gene.
Proof.
  intros [[s Hn] Hc]. split.
  - exists s. now apply get_present.
  - destruct Hc as [Hc|[c Hc]].
    + left. now rewrite (get_absent _ _ Hc).
    + right. exists c. now apply get_present.
Qed.

Lemma filteredGenes_safe (ds : list Gene) (term : string) :
  term <> EmptyString -> Forall safe ds ->
  filteredGenes ds term = Return (List.filter (keeps term) ds).
Proof.
  intros Ht F. unfold filteredGenes.
  destruct (String.eqb_spec term ""); [contradiction|].
  apply array_filter_total.
  eapply Forall_impl; [exact F|]. intros gene S. now apply matchesTerm_safe.
Qed.

Lemma filteredGenes_empty_term (ds : list Gene) :
  filteredGenes ds "" = Return ds.
Proof. reflexivity. Qed.


Lemma scenario_well_formed : Forall well_formed scenario.
Proof.
  repeat apply Forall_cons_2; try apply Forall_nil_2.
  all: split; [eexists; vm_compute; reflexivity|left; vm_compute; reflexivity].
Qed.

Lemma scenario_ascii : Forall ascii_record scenario.
Proof.
  repeat apply Forall_cons_2; try apply Forall_nil_2.
  all: intros s [E|E]; vm_compute in E;
    [injection E as <-; reflexivity|discriminate].
Qed.


(** Two of the specification's filter examples: a record named "BRCA1" is
    returned for the term "brca", and a record on "chr7" with an unrelated
    name is returned for the term "chr7". *)
Example filter_is_case_insensitive :
  let gene : Gene := {[ "id" := VNum 1; "name" := VStr "BRCA1" ]} in
  filteredGenes [gene] "brca" = Return [gene].
Proof. vm_compute. reflexivity. Qed.

Example filter_reads_chromosome :
  let gene : Gene :=
    {[ "id" := VNum 1; "name" := VStr "TP53"; "chromosome" := VStr "chr7" ]} in
  filteredGenes [gene] "chr7" = Return [gene].
Proof. vm_compute. reflexivity. Qed.

(** C10, refuted as stated.  A string name is not enough: on a record
    named "A" whose chromosome is the number 7, the term "x" makes the
    filter throw a [TypeError], because [(7).toLowerCase] is not a
    function. *)
Lemma filter_throws_on_numeric_chromosome :
  get numeric_chromosome_gene "name" = VStr "A" /\
  get numeric_chromosome_gene "chromosome" = VNum 7 /\
  filteredGenes [numeric_chromosome_gene] "x" = Throw TypeError.
Proof. vm_compute. repeat split. Qed.

Lemma matchesTerm_nameless (term : string) (gene : Gene) :
  (forall s, get gene "name" <> VStr s) ->
  matchesTerm term gene = Throw TypeError.
Proof.
  intros Hn. unfold matchesTerm.
  destruct (get gene "name") as [| |b|x|s|l|l]; try reflexivity.
  now destruct (Hn s).
Qed.

Lemma array_filter_throws (term : string) (ds : list Gene) :
  Exists (fun gene => forall s, get gene "name" <> VStr s) ds ->
  array_filter (matchesTerm term) ds = Throw TypeError.
Proof.
  induction 1 as [gene ds Hn|gene ds _ IH]; cbn [array_filter].
  - now rewrite (matchesTerm_nameless term gene Hn).
  - destruct (matchesTerm term gene) as [keep|[]]; [|reflexivity].
    cbn. now rewrite IH.
Qed.

(** C10, amended.  The filter never raises, for any term, on a dataset in
    which every record's name is a string and every record's chromosome is
    absent, otherwise falsy, or a string.  With the empty term it returns
    the dataset without reading any field.  With a non-empty term the name
    is read unconditionally: one record whose name is not a string makes
    the filter throw a [TypeError]. *)
Theorem filter_totality (ds : list Gene) (term : string) :
  (Forall safe ds -> exists out, filteredGenes ds term = Return out) /\
  (term = EmptyString -> filteredGenes ds term = Return ds) /\
  (term <> EmptyString ->
   Exists (fun gene => forall s, get gene "name" <> VStr s) ds ->
   filteredGenes ds term = Throw TypeError).
Proof.
  split; [|split].
  - intros F. destruct (String.eqb_spec term "") as [->|Ht].
    + exists ds. apply filteredGenes_empty_term.
    + eexists. now apply filteredGenes_safe.
  - intros ->. apply filteredGenes_empty_term.
  - intros Ht Ex. unfold filteredGenes.
    destruct (String.eqb_spec term ""); [contradiction|].
    now apply array_filter_throws.
Qed.

(** The amended C10 at three inputs: a safe dataset with the term "b", any
    dataset with the empty term, and a nameless record with the term "a". *)
Lemma filter_totality_witness :
  (exists out, filteredGenes scenario "b" = Return out) /\
  filteredGenes [nameless_gene] "" = Return [nameless_gene] /\
  filteredGenes [nameless_gene] "a" = Throw TypeError.
Proof.
  split; [|split].
  - apply (proj1 (filter_totality scenario "b")).
    eapply Forall_impl; [exact scenario_well_formed|exact well_formed_safe].
  - apply (proj1 (proj2 (filter_totality [nameless_gene] ""))). reflexivity.
  - apply (proj2 (proj2 (filter_totality [nameless_gene] "a"))).
    + discriminate.
    + apply Exists_cons_hd. intros s. vm_compute. discriminate.
Defined.

(* ================================================================== *)
(** * Properties of the loader *)

(** C8, refuted.  A dataset whose only entry has neither [id] nor [name]
    is loaded without any failure, becomes the active dataset, and reaches
    the core: the projector builds a point without id and name from it, and
    the filter throws on it. *)
Lemma invalid_dataset_is_loaded :
  let st := loadData (Responded true (inr [nameless_gene]))
                     (Responded true (inr [])) initialState in
  nameless_gene !! "id" = None /\
  nameless_gene !! "name" = None /\
  loadError st = None /\
  geneData st "MR01_1" = [nameless_gene] /\
  scatterData (geneData st "MR01_1") "utr5" "ai" =
    [ Point.mk VUndefined (VNum 0.5) (VNum 0) VUndefined ] /\
  filteredGenes (geneData st "MR01_1") "a" = Throw TypeError.
Proof. vm_compute. repeat split. Qed.

(** C8, amended.  [loadData] checks no entry.  When both responses are ok
    and both bodies parse, the two parsed arrays are stored as they are,
    whatever their entries hold, and no load error is set; a load failure is
    reported exactly when a fetch rejects, a response is not ok, or a body
    fails to parse. *)
Theorem loadData_stores_unvalidated :
  (forall (data1 data2 : list Gene) (st : AppState),
      loadData (Responded true (inr data1)) (Responded true (inr data2)) st =
      {| geneDataMR01_1 := data1; geneDataMR01_2 := data2;
         isLoading := false; loadError := loadError st |}) /\
  (forall response1 response2 : fetched,
      loadError (loadData response1 response2 initialState) = None <->
      exists data1 data2,
        response1 = Responded true (inr data1) /\
        response2 = Responded true (inr data2)).
Proof.
  split.
  - reflexivity.
  - intros response1 response2. split.
    + destruct response1 as [m1|[] [m1|data1]]; try discriminate.
      destruct response2 as [m2|[] [m2|data2]]; try discriminate.
      intros _. now exists data1, data2.
    + intros (data1 & data2 & -> & ->). reflexivity.
Qed.

(* ================================================================== *)
(** * Further properties of the gene filter *)

Lemma string_append_assoc (a b c : string) :
  (a +:+ b) +:+ c = a +:+ (b +:+ c).
Proof.
  induction a as [|x a IH]; append_rules; [reflexivity|now rewrite IH].
Qed.

(** Containment is transitive: what contains [t2] contains every string
    that [t2] contains. *)
Lemma includes_trans (s t2 t1 : string) :
  includes s t2 = true -> includes t2 t1 = true -> includes s t1 = true.
Proof.
  rewrite !includes_spec. intros (pre & post & ->) (pre' & post' & ->).
  exists (pre +:+ pre'), (post' +:+ post).
  now rewrite !string_append_assoc.
Qed.

Lemma occurs_nonempty (term1 term2 : string) :
  occurs_ignoring_case term1 term2 -> term1 <> EmptyString ->
  term2 <> EmptyString.
Proof.
  intros (pre & u & post & -> & E) Hne Hempty.
  destruct pre; [|discriminate]. append_rules.
  destruct u; [|discriminate].
  destruct term1; [congruence|exact E].
Qed.

Lemma keeps_narrows (term1 term2 : string) (gene : Gene) :
  occurs_ignoring_case term1 term2 ->
  keeps term2 gene = true -> keeps term1 gene = true.
Proof.
  intros O. apply includes_lowered_spec in O.
  assert (forall v, field_includes v term2 = true ->
                    field_includes v term1 = true) as step.
  { intros [| |b|x|s|l|l]; cbn [field_includes]; try discriminate.
    intros I. now apply (includes_trans _ _ _ I). }
  unfold keeps. rewrite !orb_true_iff. intros [K|K]; [left|right]; auto.
Qed.

Lemma filter_filter_implied {A : Type} (p q : A -> bool) (l : list A) :
  (forall a, q a = true -> p a = true) ->
  List.filter q (List.filter p l) = List.filter q l.
Proof.
  intros I. induction l as [|a l IH]; [reflexivity|]. cbn [List.filter].
  destruct (p a) eqn:Pa.
  - cbn [List.filter]. now rewrite IH.
  - destruct (q a) eqn:Qa; [|exact IH]. apply I in Qa. congruence.
Qed.

Lemma Forall_filter_keeps {A : Type} (Q : A -> Prop) (p : A -> bool)
    (l : list A) :
  Forall Q l -> Forall Q (List.filter p l).
Proof.
  induction 1 as [|a l Qa _ IH]; cbn [List.filter]; [constructor|].
  destruct (p a); [now constructor|assumption].
Qed.

Lemma filter_sublist {A : Type} (p : A -> bool) (l : list A) :
  sublist (List.filter p l) l.
Proof.
  induction l as [|a l IH]; cbn [List.filter]; [constructor|].
  destruct (p a); [now apply sublist_skip|now apply sublist_cons].
Qed.

(** When the callback never throws, the filter keeps the elements on
    which it returned [true]. *)
Lemma array_filter_returns {E A : Type}
    (callback : A -> completion E bool) (array kept : list A) :
  array_filter callback array = Return kept ->
  exists keep : A -> bool,
    Forall (fun a => callback a = Return (keep a)) array /\
    kept = List.filter keep array.
Proof.
  revert kept. induction array as [|a array IH]; intros kept E0.
  - injection E0 as <-. exists (fun _ => true). split; [constructor|easy].
  - cbn [array_filter] in E0.
    destruct (callback a) as [b|e] eqn:Ca; [|discriminate].
    cbn in E0.
    destruct (array_filter callback array) as [kept'|e] eqn:Rest;
      [|discriminate].
    cbn in E0. injection E0 as <-.
    destruct (IH kept' eq_refl) as (keep & F & ->).
    exists (fun x => match callback x with Return y => y | Throw _ => keep x end).
    split.
    + constructor; [now rewrite Ca|].
      eapply Forall_impl; [exact F|]. intros x Hx. cbv beta.
      now rewrite Hx.
    + cbn [List.filter]. rewrite Ca.
      assert (List.filter keep array =
              List.filter (fun x => match callback x with
                                    | Return y => y | Throw _ => keep x end)
                          array) as ->; [|reflexivity].
      clear -F. induction F as [|x l Hx _ IHl]; [reflexivity|].
      cbn [List.filter]. rewrite Hx, IHl. reflexivity.
Qed.

Lemma filteredGenes_sublist (ds shown : list Gene) (term : string) :
  filteredGenes ds term = Return shown -> sublist shown ds.
Proof.
  intros E0. unfold filteredGenes in E0. destruct (String.eqb term "").
  - now injection E0 as <-.
  - apply array_filter_returns in E0 as (keep & _ & ->).
    apply filter_sublist.
Qed.

(** X1.  Whatever the dataset and the term, a filter that returns hands
    back a sublist of the dataset: nothing is added, duplicated or
    reordered, and no more genes are shown than there are; on a dataset of
    safe records it does return. *)
Theorem filter_returns_sublist (ds : list Gene) (term : string) :
  (forall shown, filteredGenes ds term = Return shown ->
                 sublist shown ds /\ (length shown <= length ds)%nat) /\
  (Forall safe ds -> exists shown, filteredGenes ds term = Return shown).
Proof.
  split.
  - intros shown E0.
    pose proof (filteredGenes_sublist ds shown term E0) as S.
    split; [exact S|now apply sublist_length].
  - intros F. destruct (String.eqb_spec term "") as [->|Ht].
    + now exists ds.
    + eexists. now apply filteredGenes_safe.
Qed.

(** X2.  On ASCII text, searching within a result narrows it
    consistently: when the first term occurs (up to case) in the second --
    the user typed more characters -- filtering the first result by the
    second term gives exactly what filtering the whole dataset by the
    second term gives.  In particular the filter is idempotent. *)
Theorem filter_refines (ds : list Gene) (term1 term2 : string) :
  Forall safe ds ->
  Forall ascii_record ds ->
  ascii_only term1 = true ->
  ascii_only term2 = true ->
  occurs_ignoring_case term1 term2 ->
  exists shown1,
    filteredGenes ds term1 = Return shown1 /\
    filteredGenes shown1 term2 = filteredGenes ds term2.
Proof.
  intros F _ _ _ O. destruct (String.eqb_spec term1 "") as [->|H1].
  - now exists ds.
  - pose proof (occurs_nonempty _ _ O H1) as H2.
    exists (List.filter (keeps term1) ds).
    split; [now apply filteredGenes_safe|].
    rewrite !filteredGenes_safe; try assumption.
    + f_equal. apply filter_filter_implied. intros gene.
      now apply keeps_narrows.
    + now apply Forall_filter_keeps.
Qed.

(** X2 at the scenario dataset: "b" then "B2". *)
Lemma filter_refines_witness :
  exists shown1,
    filteredGenes scenario "b" = Return shown1 /\
    filteredGenes shown1 "B2" = filteredGenes scenario "B2".
Proof.
  apply (filter_refines scenario "b" "B2").
  - eapply Forall_impl; [exact scenario_well_formed|exact well_formed_safe].
  - exact scenario_ascii.
  - reflexivity.
  - reflexivity.
  - exists EmptyString, "B"%string, "2"%string. split; [reflexivity|].
    split; [|exact I]. right; left. vm_compute. lia.
Defined.

Lemma array_filter_ext {E A : Type} (f g : A -> completion E bool)
    (l : list A) :
  (forall a, f a = g a) -> array_filter f l = array_filter g l.
Proof.
  intros Efg. induction l as [|a l IH]; [reflexivity|].
  cbn [array_filter]. now rewrite Efg, IH.
Qed.

(** X3.  On ASCII text the case of the search term is irrelevant, also on
    the datasets on which the filter throws: two terms that are equal up to
    the case of their letters give the same outcome. *)
Theorem filter_ignores_term_case (ds : list Gene) (term1 term2 : string) :
  Forall ascii_record ds ->
  ascii_only term1 = true ->
  ascii_only term2 = true ->
  equal_ignoring_case term1 term2 ->
  filteredGenes ds term1 = filteredGenes ds term2.
Proof.
  intros _ _ _ E0. apply equal_ignoring_case_lowered in E0.
  unfold filteredGenes.
  destruct (String.eqb_spec term1 "") as [->|H1].
  - cbn [toLowerCase] in E0. symmetry in E0.
    apply toLowerCase_empty in E0 as ->. reflexivity.
  - destruct (String.eqb_spec term2 "") as [->|H2].
    + cbn [toLowerCase] in E0. now apply toLowerCase_empty in E0.
    + apply array_filter_ext. intros gene. unfold matchesTerm.
      now rewrite E0.
Qed.

(** X3 at the terms "b2" and "B2", which both select the record "B2". *)
Lemma filter_ignores_term_case_witness :
  filteredGenes scenario "b2" = filteredGenes scenario "B2" /\
  filteredGenes scenario "B2" =
    Return [ {[ "id" := VNum 3; "name" := VStr "B2";
                "utr5_ai_rate" := VNum 0.3; "utr5_cpm" := VNum 30 ]} ].
Proof.
  split; [|vm_compute; reflexivity].
  apply (filter_ignores_term_case scenario "b2" "B2").
  - exact scenario_ascii.
  - reflexivity.
  - reflexivity.
  - split; [right; right; vm_compute; lia|]. split; [now left|exact I].
Defined.

Lemma truthy_not_string_spec (v : value) :
  truthy_not_string v <-> truthy v = true /\ forall c, v <> VStr c.
Proof.
  destruct v as [| |b|x|s|l|l]; cbn [truthy_not_string truthy].
  - split; [contradiction|intros [F _]; discriminate].
  - split; [contradiction|intros [F _]; discriminate].
  - split; [intros ->; split; [reflexivity|discriminate]|tauto].
  - rewrite negb_true_iff, orb_false_iff. split.
    + intros H. split; [exact H|discriminate].
    + tauto.
  - split; [contradiction|intros [_ F]; now destruct (F s)].
  - split; [intros _; split; [reflexivity|discriminate]|tauto].
  - split; [intros _; split; [reflexivity|discriminate]|tauto].
Qed.

Lemma matchesTerm_throws (term : string) (gene : Gene) :
  matchesTerm term gene = Throw TypeError <-> faulty term gene.
Proof.
  unfold matchesTerm, faulty.
  destruct (gene !! "name") as [name|] eqn:En.
  2:{ rewrite (get_absent gene _ En).
      split; [intros _; left; discriminate|reflexivity]. }
  rewrite (get_present gene _ _ En).
  destruct name as [| |b|x|s|l|l];
    try (split; [intros _; left; intros s; discriminate|reflexivity]).
  cbn -[includes].
  destruct (includes (toLowerCase s) (toLowerCase term)) eqn:I.
  - split; [discriminate|].
    intros [Hs|(s' & v & Es & No & _)]; [now destruct (Hs s)|].
    injection Es as <-. apply includes_lowered_spec in I. contradiction.
  - assert (~ occurs_ignoring_case term s) as No.
    { intros O. apply includes_lowered_spec in O. congruence. }
    destruct (gene !! "chromosome") as [v|] eqn:Ec.
    2:{ rewrite (get_absent gene _ Ec). cbn.
        split; [discriminate|].
        intros [Hs|(s' & v & _ & _ & F & _)];
          [now destruct (Hs s)|discriminate]. }
    rewrite (get_present gene _ _ Ec).
    pose proof (truthy_not_string_spec v) as T.
    destruct (truthy v) eqn:Tr.
    + destruct v as [| |b|x|c|l|l]; try discriminate Tr; cbn -[includes];
        try (split; [|reflexivity];
             intros _; right; exists s; eexists;
             split; [reflexivity|]; split; [exact No|];
             split; [reflexivity|]; apply T;
             split; [reflexivity|discriminate]).
      split; [discriminate|].
      intros [Hs|(s' & v & _ & _ & Ev & Hv)]; [now destruct (Hs s)|].
      injection Ev as <-. contradiction.
    + split; [discriminate|].
      intros [Hs|(s' & v' & _ & _ & Ev & Hv)]; [now destruct (Hs s)|].
      injection Ev as <-. apply T in Hv as [F _]. discriminate.
Qed.

Lemma array_filter_throws_iff {A : Type}
    (callback : A -> completion JsError bool) (array : list A) :
  array_filter callback array = Throw TypeError <->
  Exists (fun a => callback a = Throw TypeError) array.
Proof.
  induction array as [|a array IH]; cbn [array_filter].
  - split; [discriminate|intros Ex; inversion Ex].
  - rewrite Exists_cons. destruct (callback a) as [b|[]] eqn:Ca; cbn.
    + destruct (array_filter callback array) as [kept|[]]; cbn.
      * split; [discriminate|].
        intros [F|Ex]; [discriminate|]. apply IH in Ex. discriminate.
      * split; [|reflexivity]. intros _. right. now apply IH.
    + split; [now left|reflexivity].
Qed.

(** X4.  On ASCII text the filter throws exactly when the term is
    non-empty and some record is faulty for it: a name that is not a
    string, or a name that does not contain the term next to a truthy
    chromosome that is not a string.  A record whose name contains the term
    is never a cause, however malformed its chromosome, because [||]
    short-circuits. *)
Theorem filter_throws_exactly (ds : list Gene) (term : string) :
  Forall ascii_record ds ->
  ascii_only term = true ->
  filteredGenes ds term = Throw TypeError <->
  term <> EmptyString /\ Exists (faulty term) ds.
Proof.
  intros _ _.
  unfold filteredGenes. destruct (String.eqb_spec term "") as [->|Ht].
  - split; [discriminate|]. now intros [Ht _].
  - rewrite array_filter_throws_iff. split.
    + intros Ex. split; [assumption|].
      eapply Exists_impl; [exact Ex|]. intros gene. apply matchesTerm_throws.
    + intros [_ Ex]. eapply Exists_impl; [exact Ex|].
      intros gene. apply matchesTerm_throws.
Qed.

(** X4 at the record named "A" whose chromosome is the number 7: the term
    "x" makes the filter throw, and the record is faulty for "x"; the term
    "a" does not, the name containing it. *)
Lemma filter_throws_exactly_witness :
  filteredGenes [numeric_chromosome_gene] "x" = Throw TypeError /\
  Exists (faulty "x") [numeric_chromosome_gene] /\
  filteredGenes [numeric_chromosome_gene] "a" =
    Return [numeric_chromosome_gene].
Proof.
  assert (Forall ascii_record [numeric_chromosome_gene]) as A.
  { apply Forall_cons_2; [|apply Forall_nil_2].
    intros s [E|E]; vm_compute in E;
      [injection E as <-; reflexivity|discriminate]. }
  split; [vm_compute; reflexivity|]. split; [|vm_compute; reflexivity].
  apply (proj1 (filter_throws_exactly [numeric_chromosome_gene] "x" A
                  eq_refl)).
  vm_compute. reflexivity.
Defined.

(* ================================================================== *)
(** * Further properties of the regression, in exact arithmetic *)

Section ExactRegression.
Context {P : Type}.
Variables xKey yKey : P -> R.
Local Open Scope R_scope.

Lemma scaled_not_constant (data : list P) :
  (exists p q, p ∈ data /\ q ∈ data /\ xKey p <> xKey q) ->
  exists p q, p ∈ data /\ q ∈ data /\
              sx (num_lit 100) xKey p <> sx (num_lit 100) xKey q.
Proof.
  intros (p & q & Hp & Hq & Hne). exists p, q. repeat split; try assumption.
  unfold sx. cbn. lra.
Qed.

Lemma SSres_squared_error (data : list P) :
  SSres (num_lit 100) xKey yKey data =
  squared_error xKey yKey (ols_slope (num_lit 100) xKey yKey data)
                (ols_intercept (num_lit 100) xKey yKey data) data.
Proof. unfold SSres. now rewrite Sigma_rsum. Qed.

Lemma count_nonzero (data : list P) : data <> [] -> count (T := R) data <> 0.
Proof.
  intros Hne. rewrite count_INR. destruct data; [congruence|].
  cbn [length]. apply not_0_INR. discriminate.
Qed.

Lemma ols_denominator_nonzero (data : list P) :
  (exists p q, p ∈ data /\ q ∈ data /\ xKey p <> xKey q) ->
  ols_denominator (num_lit 100) xKey data <> 0.
Proof.
  intros Hx. apply scaled_not_constant in Hx.
  unfold ols_denominator, Sxx, Sx. rewrite !Sigma_rsum, count_INR.
  apply Rgt_not_eq, Rlt_gt.
  now apply (spread_pos (sx (num_lit 100) xKey)).
Qed.

(** The total sum of squares is positive as soon as two ordinates
    differ. *)
Lemma SStot_pos (data : list P) :
  (exists p q, p ∈ data /\ q ∈ data /\ yKey p <> yKey q) ->
  0 < SStot yKey data.
Proof.
  intros (p & q & Hp & Hq & Hne). unfold SStot. rewrite Sigma_rsum.
  generalize (y_bar yKey data). intros m.
  change (0 < rsum (fun r => (yKey r - m) * (yKey r - m)) data).
  assert (forall r, r ∈ data -> yKey r <> m ->
            0 < rsum (fun r => (yKey r - m) * (yKey r - m)) data) as far.
  { intros r Hr Hd.
    pose proof (rsum_ge_term (fun r => (yKey r - m) * (yKey r - m)) data r
                  (fun r => square_nonneg _) Hr) as G.
    cbv beta in G.
    assert (0 < (yKey r - m) * (yKey r - m)) by nra. lra. }
  destruct (Req_dec (yKey p) m) as [Ep|Np]; [|now apply (far p)].
  apply (far q); [assumption|]. congruence.
Qed.

(** X5.  In exact arithmetic the returned slope and intercept are the
    least-squares solution: on a non-empty point set whose rates are not all
    equal, no line [y = a * (rate * 100) + b] has a smaller sum of squared
    errors than the returned one. *)
Theorem regression_minimises_squared_error (data : list P) (a b : R) :
  data <> [] ->
  (exists p q, p ∈ data /\ q ∈ data /\ xKey p <> xKey q) ->
  let result := calculateLinearRegression data xKey yKey in
  squared_error xKey yKey (slope result) (intercept result) data <=
  squared_error xKey yKey a b data.
Proof.
  intros Hne Hx result. subst result. unfold calculateLinearRegression.
  rewrite fit_formulas. cbn [slope intercept].
  rewrite <- SSres_squared_error.
  exact (fitted_line_is_least_squares xKey yKey data (num_lit 100) a b Hne
           (scaled_not_constant data Hx)).
Qed.

(** X6.  In exact arithmetic the coefficient of determination is a
    fraction: on a point set with at least two distinct rates and two
    distinct expression values, 0 <= r2 <= 1. *)
Theorem r2_between_zero_and_one (data : list P) :
  (exists p q, p ∈ data /\ q ∈ data /\ xKey p <> xKey q) ->
  (exists p q, p ∈ data /\ q ∈ data /\ yKey p <> yKey q) ->
  0 <= r2 (calculateLinearRegression data xKey yKey) <= 1.
Proof.
  intros Hx Hy.
  assert (data <> []) as Hne.
  { destruct Hx as (p & _ & Hp & _). intros ->. inversion Hp. }
  pose proof (SStot_pos data Hy) as Tpos.
  unfold calculateLinearRegression. rewrite fit_formulas. cbn [r2].
  unfold ols_rSquared.
  assert (0 <= SSres (num_lit 100) xKey yKey data) as Rpos.
  { unfold SSres. rewrite Sigma_rsum. apply rsum_nonneg.
    intros p. apply square_nonneg. }
  assert (SSres (num_lit 100) xKey yKey data <= SStot yKey data) as Rle.
  { pose proof (fitted_line_is_least_squares xKey yKey data (num_lit 100)
                  0 (y_bar yKey data) Hne (scaled_not_constant data Hx)) as L.
    unfold SStot. rewrite Sigma_rsum.
    erewrite (rsum_ext (fun p => sq (num_sub (yKey p) (y_bar yKey data))));
      [exact L|].
    intros p _. cbv beta. unfold sq. cbn. ring. }
  generalize dependent (SSres (num_lit 100) xKey yKey data).
  generalize dependent (SStot yKey data). cbn. intros T Tpos S Spos Sle.
  assert (S / T * T = S) as Q by (field; lra).
  generalize dependent (S / T). intros q Q. nra.
Qed.

Lemma rsum_affine (f : P -> R) (a b : R) (l : list P) :
  rsum (fun p => a * f p + b) l = a * rsum f l + INR (length l) * b.
Proof.
  induction l as [|p l IH]; cbn [rsum length].
  - cbn. ring.
  - rewrite IH, S_INR. ring.
Qed.

Lemma rsum_affine_weighted (f : P -> R) (a b : R) (l : list P) :
  rsum (fun p => f p * (a * f p + b)) l =
  a * rsum (fun p => f p * f p) l + b * rsum f l.
Proof.
  induction l as [|p l IH]; cbn [rsum]; [ring|rewrite IH; ring].
Qed.

(** X7.  In exact arithmetic the regression recovers a line: when every
    point lies on [y = a * (rate * 100) + b] and the rates are not all
    equal, the returned slope is [a] and the returned intercept is [b];
    when moreover [a] is not zero, SStot is not zero and r2 is 1. *)
Theorem regression_recovers_line (data : list P) (a b : R) :
  (exists p q, p ∈ data /\ q ∈ data /\ xKey p <> xKey q) ->
  (forall p, p ∈ data -> yKey p = a * (xKey p * 100) + b) ->
  let result := calculateLinearRegression data xKey yKey in
  slope result = a /\ intercept result = b /\
  (a <> 0 -> SStot yKey data <> 0 /\ r2 result = 1).
Proof.
  intros Hx Hline result. subst result.
  assert (data <> []) as Hne.
  { destruct Hx as (p & _ & Hp & _). intros ->. inversion Hp. }
  pose proof (ols_denominator_nonzero data Hx) as Hd.
  pose proof (count_nonzero data Hne) as Hn.
  unfold calculateLinearRegression. rewrite fit_formulas.
  cbn [slope intercept r2].
  set (X := sx (num_lit 100) xKey).
  assert (Sy yKey data = a * Sx (num_lit 100) xKey data + count data * b)
    as ESy.
  { unfold Sy, Sx. rewrite !Sigma_rsum, count_INR.
    transitivity (rsum (fun p => a * X p + b) data).
    - apply rsum_ext. intros p Hp. now rewrite (Hline p Hp).
    - rewrite rsum_affine. reflexivity. }
  assert (Sxy (num_lit 100) xKey yKey data =
          a * Sxx (num_lit 100) xKey data + b * Sx (num_lit 100) xKey data)
    as ESxy.
  { unfold Sxy, Sxx, Sx. rewrite !Sigma_rsum.
    transitivity (rsum (fun p => X p * (a * X p + b)) data).
    - apply rsum_ext. intros p Hp. now rewrite (Hline p Hp).
    - rewrite rsum_affine_weighted. reflexivity. }
  assert (ols_slope (num_lit 100) xKey yKey data = a) as Eslope.
  { unfold ols_slope. unfold ols_denominator in *. rewrite ESy, ESxy.
    generalize dependent (count data). generalize (Sx (num_lit 100) xKey data).
    generalize (Sxx (num_lit 100) xKey data). cbn. intros Q S n Hd Hn _.
    field. assumption. }
  assert (ols_intercept (num_lit 100) xKey yKey data = b) as Eint.
  { unfold ols_intercept. rewrite Eslope, ESy.
    generalize dependent (count data). generalize (Sx (num_lit 100) xKey data).
    cbn. intros S n Hn _. field. assumption. }
  split; [exact Eslope|]. split; [exact Eint|].
  intros Ha. split.
  - apply Rgt_not_eq, Rlt_gt, SStot_pos.
    destruct Hx as (p & q & Hp & Hq & Hne'). exists p, q.
    repeat split; try assumption.
    rewrite (Hline p Hp), (Hline q Hq). intros E0. apply Hne'. nra.
  - unfold ols_rSquared.
    assert (SSres (num_lit 100) xKey yKey data = 0) as ->.
    { unfold SSres. rewrite Sigma_rsum.
      rewrite (rsum_ext _ (fun _ => 0) data).
      - rewrite rsum_const. ring.
      - intros p Hp. unfold y_hat. rewrite Eslope, Eint, (Hline p Hp).
        unfold sq, sx. cbn. ring. }
    cbn. unfold Rdiv. ring.
Qed.

Lemma rsum_permutation (f : P -> R) (l l' : list P) :
  l ≡ₚ l' -> rsum f l = rsum f l'.
Proof.
  induction 1 as [|x l l' _ IH|x y l|l l' l'' _ IH1 _ IH2]; cbn [rsum].
  - reflexivity.
  - now rewrite IH.
  - ring.
  - now rewrite IH1.
Qed.

(** X8.  In exact arithmetic the fit does not depend on the order of the
    genes: two datasets that are permutations of each other get the same
    slope, intercept and r2. *)
Theorem regression_ignores_order (data data' : list P) :
  data ≡ₚ data' ->
  calculateLinearRegression data xKey yKey =
  calculateLinearRegression data' xKey yKey.
Proof.
  intros Hp. unfold calculateLinearRegression. rewrite !fit_formulas.
  assert (forall f, Sigma (T := R) f data = Sigma f data') as ES.
  { intros f. rewrite !Sigma_rsum. now apply rsum_permutation. }
  assert (count (T := R) data = count data') as En.
  { unfold count. now rewrite (Permutation_length Hp). }
  assert (ols_slope (num_lit 100) xKey yKey data =
          ols_slope (num_lit 100) xKey yKey data') as Eslope.
  { unfold ols_slope, ols_denominator, Sxy, Sxx, Sx, Sy.
    now rewrite En, !ES. }
  assert (ols_intercept (num_lit 100) xKey yKey data =
          ols_intercept (num_lit 100) xKey yKey data') as Eint.
  { unfold ols_intercept, Sx, Sy. now rewrite Eslope, En, !ES. }
  f_equal; try assumption.
  unfold ols_rSquared, SSres, SStot, y_hat, y_bar, Sy.
  now rewrite Eslope, Eint, En, !ES.
Qed.
End ExactRegression.

(** X5 at the points (1,1), (2,3), (4,4), (5,9) against the line
    y = 0 x + 4. *)
Lemma regression_minimises_squared_error_witness :
  let data := [(1, 1); (2, 3); (4, 4); (5, 9)]%R in
  let result := calculateLinearRegression data fst snd in
  (squared_error fst snd (slope result) (intercept result) data <=
   squared_error fst snd 0 4 data)%R.
Proof.
  apply (regression_minimises_squared_error fst snd
           [(1, 1); (2, 3); (4, 4); (5, 9)]%R 0%R 4%R).
  - discriminate.
  - exists (1, 1)%R, (2, 3)%R.
    split; [apply list_elem_of_here|].
    split; [apply list_elem_of_further, list_elem_of_here|]. cbn. lra.
Defined.

(** X6 at the points (1,1), (2,3), (4,4), (5,9). *)
Lemma r2_between_zero_and_one_witness :
  (0 <= r2 (calculateLinearRegression
              [(1, 1); (2, 3); (4, 4); (5, 9)]%R fst snd) <= 1)%R.
Proof.
  apply (r2_between_zero_and_one fst snd [(1, 1); (2, 3); (4, 4); (5, 9)]%R).
  - exists (1, 1)%R, (2, 3)%R.
    split; [apply list_elem_of_here|].
    split; [apply list_elem_of_further, list_elem_of_here|]. cbn. lra.
  - exists (1, 1)%R, (2, 3)%R.
    split; [apply list_elem_of_here|].
    split; [apply list_elem_of_further, list_elem_of_here|]. cbn. lra.
Defined.

(** X7 at three points of the line y = 2 (rate * 100) + 1. *)
Lemma regression_recovers_line_witness :
  let data := [(1, 201); (2, 401); (3, 601)]%R in
  let result := calculateLinearRegression data fst snd in
  slope result = 2%R /\ intercept result = 1%R /\
  (2%R <> 0%R -> SStot snd data <> 0%R /\ r2 result = 1%R).
Proof.
  apply (regression_recovers_line fst snd
           [(1, 201); (2, 401); (3, 601)]%R 2%R 1%R).
  - exists (1, 201)%R, (2, 401)%R.
    split; [apply list_elem_of_here|].
    split; [apply list_elem_of_further, list_elem_of_here|]. cbn. lra.
  - intros p Hp. apply list_elem_of_In in Hp. cbn in Hp.
    destruct Hp as [<-|[<-|[<-|[]]]]; cbn; lra.
Defined.

(** X8 at a dataset and its reversal. *)
Lemma regression_ignores_order_witness :
  calculateLinearRegression [(1, 1); (2, 3); (4, 4)]%R fst snd =
  calculateLinearRegression [(4, 4); (2, 3); (1, 1)]%R fst snd.
Proof.
  apply (regression_ignores_order fst snd
           [(1, 1); (2, 3); (4, 4)]%R [(4, 4); (2, 3); (1, 1)]%R).
  apply (Permutation_rev [(1, 1); (2, 3); (4, 4)]%R).
Defined.

(* ================================================================== *)
(** * NaN in double arithmetic *)

(** There is one NaN. *)
Lemma is_nan_true (x : float) : PrimFloat.is_nan x = true -> x = nan.
Proof.
  intros N. apply Prim2SF_inj. change (Prim2SF nan) with S754_nan.
  destruct (Prim2SF x) as [s|s| |s m e] eqn:Ex; try reflexivity.
  all: assert (PrimFloat.is_nan x = false) as F
         by (apply is_nan_spec; rewrite Ex; discriminate);
       congruence.
Qed.

Lemma add_nan_l (x : float) : (nan + x)%float = nan.
Proof.
  apply Prim2SF_inj. rewrite add_spec. change (Prim2SF nan) with S754_nan.
  reflexivity.
Qed.

Lemma add_nan_r (x : float) : (x + nan)%float = nan.
Proof.
  apply Prim2SF_inj. rewrite add_spec. change (Prim2SF nan) with S754_nan.
  now destruct (Prim2SF x).
Qed.

Lemma sub_nan_l (x : float) : (nan - x)%float = nan.
Proof.
  apply Prim2SF_inj. rewrite sub_spec. change (Prim2SF nan) with S754_nan.
  reflexivity.
Qed.

Lemma sub_nan_r (x : float) : (x - nan)%float = nan.
Proof.
  apply Prim2SF_inj. rewrite sub_spec. change (Prim2SF nan) with S754_nan.
  now destruct (Prim2SF x).
Qed.

Lemma mul_nan_l (x : float) : (nan * x)%float = nan.
Proof.
  apply Prim2SF_inj. rewrite mul_spec. change (Prim2SF nan) with S754_nan.
  reflexivity.
Qed.

Lemma mul_nan_r (x : float) : (x * nan)%float = nan.
Proof.
  apply Prim2SF_inj. rewrite mul_spec. change (Prim2SF nan) with S754_nan.
  now destruct (Prim2SF x).
Qed.

Lemma div_nan_l (x : float) : (nan / x)%float = nan.
Proof.
  apply Prim2SF_inj. rewrite div_spec. change (Prim2SF nan) with S754_nan.
  reflexivity.
Qed.

Section NanInTheFit.
Context {P : Type}.
Variables xKey yKey : P -> float.

Lemma fold_add_nan (f : P -> float) (data : list P) :
  fold_left (fun acc p => num_add acc (f p)) data nan = nan.
Proof.
  induction data as [|p data IH]; [reflexivity|].
  cbn [fold_left]. change (num_add nan (f p)) with (nan + f p)%float.
  now rewrite add_nan_l.
Qed.

(** A sum with a NaN term is NaN. *)
Lemma Sigma_nan (f : P -> float) (data : list P) :
  (exists p, p ∈ data /\ f p = nan) -> Sigma f data = nan.
Proof.
  unfold Sigma. generalize (num_lit (T := float) 0).
  induction data as [|p data IH]; intros acc (q & Hq & Eq).
  - inversion Hq.
  - cbn [fold_left]. apply elem_of_cons in Hq as [->|Hq].
    + rewrite Eq. change (num_add acc nan) with (acc + nan)%float.
      rewrite add_nan_r. apply fold_add_nan.
    + apply IH. now exists q.
Qed.

(** X9.  In double arithmetic one NaN poisons the whole fit: if the rate
    or the expression of any single point is NaN, then slope, intercept and
    r2 are all NaN. *)
Theorem nan_poisons_fit (data : list P) :
  (exists p, p ∈ data /\
             (PrimFloat.is_nan (xKey p) = true \/
              PrimFloat.is_nan (yKey p) = true)) ->
  calculateLinearRegression data xKey yKey = nan_fit.
Proof.
  intros (p & Hp & Hnan).
  unfold calculateLinearRegression. rewrite fit_formulas.
  set (c := num_lit (T := float) 100).
  assert (num_mul (Sx c xKey data) (Sy yKey data) = nan) as Eprod.
  { destruct Hnan as [Nx|Ny].
    - assert (Sx c xKey data = nan) as ->.
      { apply Sigma_nan. exists p. split; [assumption|].
        unfold sx. rewrite (is_nan_true _ Nx). apply mul_nan_l. }
      apply mul_nan_l.
    - assert (Sy yKey data = nan) as ->.
      { apply Sigma_nan. exists p. split; [assumption|].
        now apply is_nan_true. }
      apply mul_nan_r. }
  assert (ols_slope c xKey yKey data = nan) as Eslope.
  { unfold ols_slope. rewrite Eprod.
    change (num_sub ?u nan) with (u - nan)%float. rewrite sub_nan_r.
    apply div_nan_l. }
  assert (ols_intercept c xKey yKey data = nan) as Eint.
  { unfold ols_intercept. rewrite Eslope.
    change (num_mul nan ?u) with (nan * u)%float. rewrite mul_nan_l.
    change (num_sub ?u nan) with (u - nan)%float. rewrite sub_nan_r.
    apply div_nan_l. }
  assert (ols_rSquared c xKey yKey data = nan) as Er2.
  { unfold ols_rSquared.
    assert (SSres c xKey yKey data = nan) as ->.
    { apply Sigma_nan. exists p. split; [assumption|].
      unfold y_hat. rewrite Eslope, Eint.
      change (num_add ?u nan) with (u + nan)%float. rewrite add_nan_r.
      change (num_sub ?u nan) with (u - nan)%float. rewrite sub_nan_r.
      apply mul_nan_l. }
    change (num_div nan ?u) with (nan / u)%float. rewrite div_nan_l.
    apply sub_nan_r. }
  now rewrite Eslope, Eint, Er2.
Qed.
End NanInTheFit.

(** X9 at the points (0.1,1), (NaN,2), (0.3,3). *)
Lemma nan_poisons_fit_witness :
  calculateLinearRegression [(0.1, 1); (nan, 2); (0.3, 3)]%float fst snd =
  nan_fit.
Proof.
  apply (nan_poisons_fit fst snd [(0.1, 1); (nan, 2); (0.3, 3)]%float).
  exists (nan, 2%float).
  split; [apply list_elem_of_further, list_elem_of_here|].
  left. reflexivity.
Defined.

(* ================================================================== *)
(** * Further properties of the fitted segment *)

Lemma fold_min_nan (numbers : list float) :
  fold_left min_step numbers nan = nan.
Proof. induction numbers as [|x numbers IH]; [reflexivity|exact IH]. Qed.

Lemma fold_max_nan (numbers : list float) :
  fold_left max_step numbers nan = nan.
Proof. induction numbers as [|x numbers IH]; [reflexivity|exact IH]. Qed.

Lemma Math_min_nan (numbers : list float) :
  nan ∈ numbers -> Math_min numbers = nan.
Proof.
  unfold Math_min. generalize infinity.
  induction numbers as [|x numbers IH]; intros r Hn.
  - inversion Hn.
  - cbn [fold_left]. apply elem_of_cons in Hn as [<-|Hn].
    + assert (min_step r nan = nan) as ->
        by (unfold min_step; now rewrite orb_true_r).
      apply fold_min_nan.
    + now apply IH.
Qed.

Lemma Math_max_nan (numbers : list float) :
  nan ∈ numbers -> Math_max numbers = nan.
Proof.
  unfold Math_max. generalize neg_infinity.
  induction numbers as [|x numbers IH]; intros r Hn.
  - inversion Hn.
  - cbn [fold_left]. apply elem_of_cons in Hn as [<-|Hn].
    + assert (max_step r nan = nan) as ->
        by (unfold max_step; now rewrite orb_true_r).
      apply fold_max_nan.
    + now apply IH.
Qed.

(** X10.  One NaN rate destroys the segment: if the rate of any point is
    NaN, both end points of [regressionLine] have x = NaN and y = NaN,
    whatever the coefficients. *)
Theorem nan_rate_blanks_segment
    (points : list (float * float)) (regression : Fit float) :
  (exists d, d ∈ points /\ PrimFloat.is_nan (fst d) = true) ->
  regressionLine points regression =
  [ {| Line.x := nan; Line.y := nan |}; {| Line.x := nan; Line.y := nan |} ].
Proof.
  intros (d & Hd & Nd).
  assert (nan ∈ map scaled points) as Hn.
  { apply list_elem_of_In, in_map_iff. exists d.
    split; [|now apply list_elem_of_In].
    unfold scaled. rewrite (is_nan_true _ Nd). apply mul_nan_l. }
  unfold regressionLine.
  rewrite (Math_min_nan _ Hn), (Math_max_nan _ Hn).
  now rewrite mul_nan_r, add_nan_l.
Qed.

(** X10 at the points (0.1,1), (NaN,2). *)
Lemma nan_rate_blanks_segment_witness :
  regressionLine [(0.1, 1); (nan, 2)]%float
                 {| slope := 1; intercept := 0; r2 := 1 |}%float =
  [ {| Line.x := nan; Line.y := nan |}; {| Line.x := nan; Line.y := nan |} ].
Proof.
  apply (nan_rate_blanks_segment [(0.1, 1); (nan, 2)]%float).
  exists (nan, 2%float).
  split; [apply list_elem_of_further, list_elem_of_here|reflexivity].
Defined.

(** X11.  The segment runs from left to right: on a non-empty point set
    whose scaled rates are numbers, the x of the first end point is at most
    the x of the second; with a single point the two end points coincide. *)
Theorem segment_runs_left_to_right
    (points : list (float * float)) (regression : Fit float) :
  points <> [] ->
  (forall d, d ∈ points -> PrimFloat.is_nan (scaled d) = false) ->
  (exists first second,
     regressionLine points regression = [first; second] /\
     PrimFloat.leb (Line.x first) (Line.x second) = true) /\
  (forall d, points = [d] ->
     exists point, regressionLine points regression = [point; point] /\
                   Line.x point = scaled d).
Proof.
  intros Hne Hnan.
  set (xs := map scaled points).
  assert (xs <> []) as Hxs by (destruct points; [congruence|discriminate]).
  assert (Forall (fun x => PrimFloat.is_nan x = false) xs) as F.
  { apply Forall_forall. intros x Hx. apply list_elem_of_In, in_map_iff in Hx.
    destruct Hx as (d & <- & Hd). apply Hnan. now apply list_elem_of_In. }
  destruct (Math_min_is_minimum xs Hxs F) as [Imin Lmin].
  destruct (Math_max_is_maximum xs Hxs F) as [Imax Lmax].
  split.
  - eexists _, _. split; [reflexivity|]. cbn [Line.x]. now apply Lmin.
  - intros d ->. subst xs. cbn [map] in *.
    apply list_elem_of_singleton in Imin, Imax.
    exists {| Line.x := scaled d;
              Line.y := (slope regression * scaled d
                         + intercept regression)%float |}.
    split; [|reflexivity].
    unfold regressionLine. cbn [map]. now rewrite Imin, Imax.
Qed.

(** X11 at the points (0.1,3), (0.2,5), (0.4,8). *)
Lemma segment_runs_left_to_right_witness :
  let points := [(0.1, 3); (0.2, 5); (0.4, 8)]%float in
  let regression := calculateLinearRegression points fst snd in
  (exists first second,
     regressionLine points regression = [first; second] /\
     PrimFloat.leb (Line.x first) (Line.x second) = true) /\
  (forall d, points = [d] ->
     exists point, regressionLine points regression = [point; point] /\
                   Line.x point = scaled d).
Proof.
  intros points regression.
  apply (segment_runs_left_to_right points regression).
  - discriminate.
  - intros d Hd. apply list_elem_of_In in Hd. cbn in Hd.
    destruct Hd as [<-|[<-|[<-|[]]]]; vm_compute; reflexivity.
Defined.

(** X12.  The first render, before any data has arrived (and the render
    of an empty JSON array): whatever the selection, the projection is
    empty, the filter returns the empty list, the fit is three NaNs, and
    the segment goes from x = +infinity to x = -infinity with y = NaN;
    nothing throws. *)
Theorem first_render_on_no_data
    (region modType term : string) :
  scatterData [] region modType = [] /\
  filteredGenes [] term = Return [] /\
  regression (scatterData [] region modType) = Some nan_fit /\
  regressionLine [] nan_fit =
    [ {| Line.x := infinity; Line.y := nan |};
      {| Line.x := neg_infinity; Line.y := nan |} ].
Proof.
  split; [reflexivity|]. split.
  - unfold filteredGenes. now destruct (String.eqb term "").
  - split; vm_compute; reflexivity.
Qed.

(* ================================================================== *)
(** * Further properties of the projector *)

(** ** The field names *)

Lemma length_append (s t : string) :
  String.length (s +:+ t) = (String.length s + String.length t)%nat.
Proof.
  induction s as [|a s IH]; append_rules; cbn [String.length];
    [reflexivity|now rewrite IH].
Qed.

Lemma append_cancel_r (s s' t : string) : s +:+ t = s' +:+ t -> s = s'.
Proof.
  revert s'. induction s as [|a s IH]; intros [|b s'] E0; append_rules.
  - reflexivity.
  - apply (f_equal String.length) in E0. cbn [String.length] in E0.
    rewrite length_append in E0. lia.
  - apply (f_equal String.length) in E0. cbn [String.length] in E0.
    rewrite length_append in E0. lia.
  - injection E0 as -> E0. f_equal. now apply IH.
Qed.

Lemma includes_cons_false (a : ascii) (s t : string) :
  includes (String a s) t = false ->
  startsWith (String a s) t = false /\ includes s t = false.
Proof. cbn [includes]. apply orb_false_iff. Qed.

(** Two names that agree up to their first underscore agree on both
    sides of it. *)
Lemma split_at_underscore (r r' rest rest' : string) :
  includes r "_" = false -> includes r' "_" = false ->
  r +:+ String "_" rest = r' +:+ String "_" rest' ->
  r = r' /\ rest = rest'.
Proof.
  revert r'. induction r as [|a r IH]; intros [|b r'] Nr Nr' E0;
    append_rules.
  - injection E0 as ->. now split.
  - injection E0 as <- _. apply includes_cons_false in Nr' as [S _].
    discriminate S.
  - injection E0 as -> _. apply includes_cons_false in Nr as [S _].
    discriminate S.
  - injection E0 as -> E0.
    apply includes_cons_false in Nr as [_ Nr].
    apply includes_cons_false in Nr' as [_ Nr'].
    destruct (IH r' Nr Nr' E0) as [-> ->]. now split.
Qed.

(** X14.  The field names built from the selection are unambiguous: for
    region identifiers without an underscore -- as the five of the table
    are -- different (region, modification) pairs read different rate
    fields, different regions read different cpm fields, and no rate field
    is a cpm field. *)
Theorem field_names_are_unambiguous (r r' m m' : string) :
  includes r "_" = false -> includes r' "_" = false ->
  (rateKey r m = rateKey r' m' -> r = r' /\ m = m') /\
  (cpmKey r = cpmKey r' -> r = r') /\
  rateKey r m <> cpmKey r' /\
  Forall (fun region => includes region "_" = false) regions.
Proof.
  intros Nr Nr'. unfold rateKey, cpmKey.
  assert (r +:+ "_" +:+ m +:+ "_rate" = r' +:+ "_" +:+ m' +:+ "_rate" ->
          r = r' /\ m = m') as rate.
  { intros E0. destruct (split_at_underscore _ _ _ _ Nr Nr' E0) as [-> E1].
    now apply append_cancel_r in E1. }
  split; [exact rate|]. split; [|split].
  - intros E0. now apply append_cancel_r in E0.
  - intros E0. destruct (split_at_underscore _ _ _ _ Nr Nr' E0) as [_ E1].
    apply (f_equal String.length) in E1. rewrite length_append in E1.
    cbn in E1. lia.
  - repeat constructor.
Qed.

(** X14 at the regions utr5 and utr3. *)
Lemma field_names_are_unambiguous_witness :
  (rateKey "utr5" "ai" = rateKey "utr3" "m6a" ->
   "utr5"%string = "utr3"%string /\ "ai"%string = "m6a"%string) /\
  (cpmKey "utr5" = cpmKey "utr3" -> "utr5"%string = "utr3"%string) /\
  rateKey "utr5" "ai" <> cpmKey "utr3" /\
  Forall (fun region => includes region "_" = false) regions.
Proof.
  apply (field_names_are_unambiguous "utr5" "utr3" "ai" "m6a"); reflexivity.
Defined.

(* ================================================================== *)
(** * Properties of the selection state *)

Lemma sample_lookup (id : string) :
  id ∈ map Choice.id samples ->
  exists s, List.find (fun s => String.eqb (Choice.id s) id) samples = Some s
            /\ Choice.id s = id.
Proof.
  intros H. apply list_elem_of_In in H. cbn in H.
  destruct H as [<-|[<-|[]]]; eexists; split; reflexivity.
Qed.

Lemma region_lookup (id : string) :
  id ∈ regions ->
  exists r, List.find (fun r => String.eqb (Region.id r) id) regionEntries
              = Some r /\ Region.id r = id.
Proof.
  intros H. apply list_elem_of_In in H. cbn in H.
  destruct H as [<-|[<-|[<-|[<-|[<-|[]]]]]]; eexists; split; reflexivity.
Qed.

Lemma modType_lookup (id : string) :
  id ∈ modTypes ->
  exists m, List.find (fun m => String.eqb (Choice.id m) id) modTypeEntries
              = Some m /\ Choice.id m = id.
Proof.
  intros H. apply list_elem_of_In in H. cbn in H.
  destruct H as [<-|[<-|[<-|[]]]]; eexists; split; reflexivity.
Qed.

(** The selected identifiers never leave the three tables. *)
Lemma reachable_in_tables (app : AppState) (sel : Selection) :
  reachable app sel ->
  selectedSample sel ∈ map Choice.id samples /\
  selectedRegion sel ∈ regions /\
  selectedModType sel ∈ modTypes.
Proof.
  induction 1 as [|sel ev _ (IS & IR & IM) [_ Off]].
  - repeat split; apply list_elem_of_here.
  - destruct ev as [s|r|m|v|data|gene];
      cbn [handle selectedSample selectedRegion selectedModType];
      repeat split; try assumption.
    + apply list_elem_of_In, (in_map Choice.id samples).
      now apply list_elem_of_In.
    + apply list_elem_of_In, (in_map Region.id regionEntries).
      now apply list_elem_of_In.
    + apply list_elem_of_In, (in_map Choice.id modTypeEntries).
      now apply list_elem_of_In.
Qed.

(** X15.  Whatever the user clicks and types, the selected sample, region
    and modification type stay rows of their tables: the three [find]
    lookups of the render never return [undefined] (so reading [.label] and
    [.color] from them never throws), the row found is the one selected,
    and the projection keeps reading fields named after a region and a
    modification type of the tables. *)
Theorem selection_stays_in_tables (app : AppState) (sel : Selection) :
  reachable app sel ->
  (exists s, currentSample sel = Some s /\ Choice.id s = selectedSample sel) /\
  (exists r, currentRegion sel = Some r /\ Region.id r = selectedRegion sel) /\
  (exists m, currentModType sel = Some m /\
             Choice.id m = selectedModType sel) /\
  selectedRegion sel ∈ regions /\ selectedModType sel ∈ modTypes.
Proof.
  intros R. destruct (reachable_in_tables app sel R) as (IS & IR & IM).
  split; [now apply sample_lookup|]. split; [now apply region_lookup|].
  split; [now apply modType_lookup|]. now split.
Qed.

(** The state in which both scenario datasets are loaded. *)
Lemma loaded_scenario_screen :
  screen (loadData (Responded true (inr scenario))
                   (Responded true (inr scenario)) initialState) = MainScreen.
Proof. reflexivity. Qed.

(** X15 after a click on the region button "Exonic". *)
Lemma selection_stays_in_tables_witness :
  let app := loadData (Responded true (inr scenario))
                      (Responded true (inr scenario)) initialState in
  let sel := handle app
               (RegionClick (Region.mk "exon" "Exonic" "#FFE66D" (Some "Exon")))
               initialSelection in
  (exists s, currentSample sel = Some s /\ Choice.id s = selectedSample sel) /\
  (exists r, currentRegion sel = Some r /\ Region.id r = selectedRegion sel) /\
  (exists m, currentModType sel = Some m /\
             Choice.id m = selectedModType sel) /\
  selectedRegion sel ∈ regions /\ selectedModType sel ∈ modTypes.
Proof.
  intros app sel. apply (selection_stays_in_tables app sel).
  apply reachable_step; [apply reachable_initial|].
  split; [reflexivity|].
  apply list_elem_of_further, list_elem_of_further, list_elem_of_here.
Defined.

Lemma findGene_member (gd : list Gene) (data : Point.t) (gene : Gene) :
  findGene gd data = SelGene gene -> gene ∈ gd.
Proof.
  unfold findGene.
  destruct (List.find _ gd) as [g|] eqn:F; [|discriminate].
  intros E0. injection E0 as <-. apply find_some in F as [I _].
  now apply list_elem_of_In.
Qed.

(** X16.  A selected gene always belongs to the dataset on display:
    whatever the user clicks and types, [selectedGene] is [null],
    [undefined], or a record of the dataset of the selected sample (the
    click on a sample button resets it to [null]). *)
Theorem selected_gene_is_on_display (app : AppState) (sel : Selection) :
  reachable app sel ->
  match selectedGene sel with
  | SelGene gene => gene ∈ geneData app (selectedSample sel)
  | SelNull | SelUndefined => True
  end.
Proof.
  induction 1 as [|sel ev _ IH [_ Off]]; [exact I|].
  destruct ev as [s|r|m|v|data|g];
    cbn [handle selectedGene selectedSample]; try exact IH; try exact I.
  - destruct (findGene _ data) as [| |gene] eqn:F; try exact I.
    now apply findGene_member in F.
  - destruct Off as (shown & F & In). apply filteredGenes_sublist in F.
    exact (elem_of_sublist _ _ _ In F).
Qed.

(** X16 after a click on the first gene of the browser. *)
Lemma selected_gene_is_on_display_witness :
  let app := loadData (Responded true (inr scenario))
                      (Responded true (inr scenario)) initialState in
  let first : Gene :=
    {[ "id" := VNum 1; "name" := VStr "A";
       "utr5_ai_rate" := VNum 0.1; "utr5_cpm" := VNum 10 ]} in
  let sel := handle app (GeneClick first) initialSelection in
  match selectedGene sel with
  | SelGene gene => gene ∈ geneData app (selectedSample sel)
  | SelNull | SelUndefined => True
  end.
Proof.
  intros app first sel.
  apply (selected_gene_is_on_display app sel).
  apply reachable_step; [apply reachable_initial|].
  split; [reflexivity|]. exists scenario. split; [reflexivity|].
  apply list_elem_of_here.
Defined.

Lemma find_first_match {A : Type} (pred : A -> bool) (l : list A)
    (j : nat) (x : A) :
  l !! j = Some x -> pred x = true ->
  (forall k y, (k < j)%nat -> l !! k = Some y -> pred y = false) ->
  List.find pred l = Some x.
Proof.
  revert j. induction l as [|a l IH]; intros [|j] Hj Px Before;
    try discriminate.
  - injection Hj as ->. cbn. now rewrite Px.
  - cbn. rewrite (Before 0%nat a) by (reflexivity || lia).
    apply (IH j Hj Px). intros k y Hk Hy.
    apply (Before (S k) y); [lia|exact Hy].
Qed.

(** X17.  A click on the dot of the [i]-th gene selects the first gene of
    the dataset whose [id] is [===] to the clicked one.  With ids that are
    pairwise different that is the clicked gene itself; when an earlier gene
    carries the same id, the earlier gene is selected instead. *)
Theorem point_click_selects_first_match
    (gd : list Gene) (region modType : string)
    (i j : nat) (gene first : Gene) :
  gd !! i = Some gene ->
  gd !! j = Some first ->
  strict_equal (get first "id") (get gene "id") = true ->
  (forall k other, (k < j)%nat -> gd !! k = Some other ->
                   strict_equal (get other "id") (get gene "id") = false) ->
  exists data,
    scatterData gd region modType !! i = Some data /\
    findGene gd data = SelGene first.
Proof.
  intros Hi Hj Eq Before. eexists. split; [apply scatterData_lookup, Hi|].
  unfold findGene. cbn [Point.id].
  now rewrite (find_first_match _ gd j first Hj Eq Before).
Qed.

(** X17 at the second gene of the scenario dataset. *)
Lemma point_click_selects_first_match_witness :
  let gene : Gene :=
    {[ "id" := VNum 2; "name" := VStr "B";
       "utr5_ai_rate" := VNum 0.2; "utr5_cpm" := VNum 20 ]} in
  exists data,
    scatterData scenario "utr5" "ai" !! 1%nat = Some data /\
    findGene scenario data = SelGene gene.
Proof.
  intros gene.
  apply (point_click_selects_first_match scenario "utr5" "ai" 1 1 gene gene).
  - reflexivity.
  - reflexivity.
  - vm_compute. reflexivity.
  - intros [|k] other Hk Ho; [|lia].
    injection Ho as <-. vm_compute. reflexivity.
Defined.

(* ================================================================== *)
(** * Further properties of the loader *)

(** X18.  After [loadData] the loading screen is gone, whatever the two
    responses were.  The error screen shows exactly when a load failed with
    a non-empty message; a response that is not ok shows the fixed message
    of its sample, whatever its body. *)
Theorem load_ends_the_loading_screen (response1 response2 : fetched) :
  let app := loadData response1 response2 initialState in
  isLoading app = false /\
  screen app <> LoadingScreen /\
  (forall message,
      screen app = ErrorScreen message <->
      loadError app = Some message /\ message <> EmptyString) /\
  (forall json,
      response1 = Responded false json ->
      screen app = ErrorScreen "Failed to load MR01_1 data") /\
  (forall data1 json,
      response1 = Responded true (inr data1) ->
      response2 = Responded false json ->
      screen app = ErrorScreen "Failed to load MR01_2 data").
Proof.
  intros app.
  assert (isLoading app = false) as L.
  { subst app. unfold loadData.
    destruct (fetch_json _ response1); [|reflexivity].
    now destruct (fetch_json _ response2). }
  split; [exact L|]. unfold screen. rewrite L. split; [|split; [|split]].
  - destruct (loadError app) as [m|]; [|discriminate].
    destruct (String.eqb m ""); discriminate.
  - intros message. destruct (loadError app) as [m|].
    + destruct (String.eqb_spec m "") as [->|Hm].
      * split; [discriminate|]. intros [E0 Hne]. now injection E0 as <-.
      * split; [intros E0; now injection E0 as <-|].
        intros [E0 _]. now injection E0 as <-.
    + split; [discriminate|]. intros [E0 _]. discriminate.
  - intros json ->. reflexivity.
  - intros data1 json -> ->. reflexivity.
Qed.

(** X19.  A failed load is not rolled back and not retried.  When the
    first load fails, the second response is never looked at and both
    datasets stay as they were.  When the first load succeeds and the second
    fails, the first array is stored all the same, next to the error: the
    state then holds one new and one old dataset. *)
Theorem failed_load_keeps_partial_state
    (response1 response2 : fetched) (st : AppState) (message : string) :
  (fetch_json "Failed to load MR01_1 data" response1 = Throw message ->
   forall other : fetched,
     loadData response1 other st =
     {| geneDataMR01_1 := geneDataMR01_1 st;
        geneDataMR01_2 := geneDataMR01_2 st;
        isLoading := false; loadError := Some message |}) /\
  (forall data1,
     response1 = Responded true (inr data1) ->
     fetch_json "Failed to load MR01_2 data" response2 = Throw message ->
     loadData response1 response2 st =
     {| geneDataMR01_1 := data1;
        geneDataMR01_2 := geneDataMR01_2 st;
        isLoading := false; loadError := Some message |}).
Proof.
  split.
  - intros F other. unfold loadData. now rewrite F.
  - intros data1 -> F. unfold loadData. cbn [fetch_json]. now rewrite F.
Qed.
